(** * Host emulation of <util/atomic.h>: a shallow embedding of
      [atomic.h] / [atomic.c] and the properties of its scoped sections.

    The header replaces the AVR global interrupt flag by one process-wide
    recursive pthread mutex [_atomic_mutex] and a [uint32_t] nesting counter
    [_atomic_count].  [__cli] locks and counts up, [__sei] counts down and
    unlocks; the [ATOMIC_BLOCK] / [NONATOMIC_BLOCK] macros wrap them in a
    one-trip [for] loop whose loop variable carries a [__cleanup__] handler. *)

From Stdlib Require Import ZArith String Ascii Bool List Lia.
Import ListNotations.
Local Open Scope Z_scope.

(** ** Machine integers *)

(** [uint32_t] arithmetic: every store to [_atomic_count] is reduced
    modulo 2^32. *)
Definition UINT32_MOD : Z := 2 ^ 32.
Definition UINT32_MAX : Z := 4294967295.

Definition uint32 (z : Z) : Z := z mod UINT32_MOD.

Definition in_uint32 (z : Z) : Prop := 0 <= z < UINT32_MOD.

(** C truth value of an integer used as a condition. *)
Definition truthy (z : Z) : bool := negb (z =? 0).

(** ** The recursive mutex

    [pthread_mutex_t] with [PTHREAD_RECURSIVE_MUTEX_INITIALIZER_NP] is
    library code; it is modelled by its POSIX contract for recursive
    mutexes: the owner may lock again (the lock count goes up), unlocking
    lowers the count and frees the mutex when it reaches zero, and an unlock
    by a thread that is not the owner changes nothing and returns [EPERM].
    The implementation-defined ceiling on the lock count ([EAGAIN]) is not
    modelled: the count is an unbounded [positive]. *)

Definition tid := nat.

Inductive pthread_mutex_t : Type :=
| Free
| Held (owner : tid) (count : positive).

Definition PTHREAD_RECURSIVE_MUTEX_INITIALIZER_NP : pthread_mutex_t := Free.

Definition EPERM : Z := 1.

(** [None]: the caller has to wait, another thread owns the mutex. *)
Definition mutex_lock (me : tid) (m : pthread_mutex_t) : option pthread_mutex_t :=
  match m with
  | Free => Some (Held me 1)
  | Held o c => if Nat.eqb o me then Some (Held o (Pos.succ c)) else None
  end.

Definition mutex_unlock (me : tid) (m : pthread_mutex_t) : pthread_mutex_t * Z :=
  match m with
  | Free => (Free, EPERM)
  | Held o c =>
      if Nat.eqb o me then
        (match c with
         | xH => Free
         | _ => Held o (Pos.pred c)
         end, 0)
      else (Held o c, EPERM)
  end.

(** Recursion level at which [me] holds the mutex (0: not held by [me]). *)
Definition held_by (me : tid) (m : pthread_mutex_t) : nat :=
  match m with
  | Free => 0%nat
  | Held o c => if Nat.eqb o me then Pos.to_nat c else 0%nat
  end.

(** The mutex is free or already owned by [me]: locking does not wait. *)
Definition available (me : tid) (m : pthread_mutex_t) : bool :=
  match m with
  | Free => true
  | Held o _ => Nat.eqb o me
  end.

(** ** Program state and observable effects *)

Inductive event : Type :=
| Ev_lock (t : tid)               (* pthread_mutex_lock returned in t *)
| Ev_unlock (t : tid) (rc : Z)    (* pthread_mutex_unlock called by t *)
| Ev_count (v : Z)                (* store to _atomic_count *)
| Ev_stderr (msg : string).       (* fprintf(stderr, msg) *)

Record state : Type := mkState {
  _atomic_mutex : pthread_mutex_t;
  _atomic_count : Z;
  trace : list event
}.

(** atomic.c, lines 9-10 *)
Definition initial_state : state :=
  {| _atomic_mutex := PTHREAD_RECURSIVE_MUTEX_INITIALIZER_NP;
     _atomic_count := 0;
     trace := [] |}.

Definition emit (e : event) (s : state) : state :=
  {| _atomic_mutex := _atomic_mutex s;
     _atomic_count := _atomic_count s;
     trace := trace s ++ [e] |}.

Fixpoint stderr_of (tr : list event) : list string :=
  match tr with
  | [] => []
  | Ev_stderr msg :: tr' => msg :: stderr_of tr'
  | _ :: tr' => stderr_of tr'
  end.

(** What has been written to [stderr] so far. *)
Definition stderr (s : state) : list string := stderr_of (trace s).

Definition newline : string := String (ascii_of_nat 10) EmptyString.

Definition nested_warning : string :=
  ("you nested non recursive locks" ++ newline)%string.

(** ** Results of possibly waiting, possibly looping code *)

Inductive result (A : Type) : Type :=
| Done (a : A)
| Blocked        (* waiting in pthread_mutex_lock *)
| OutOfFuel.     (* loop not finished within the fuel *)
Arguments Done {A} a.
Arguments Blocked {A}.
Arguments OutOfFuel {A}.

Definition bind {A B : Type} (r : result A) (k : A -> result B) : result B :=
  match r with
  | Done a => k a
  | Blocked => Blocked
  | OutOfFuel => OutOfFuel
  end.

Notation "x <- r ;; k" := (bind r (fun x => k))
  (at level 61, r at next level, right associativity).

Notation "' pat <- r ;; k" := (bind r (fun x => match x with pat => k end))
  (at level 61, pat pattern, r at next level, right associativity).

(** ** The primitive steps of atomic.h *)

Definition pthread_mutex_lock (me : tid) (s : state) : result state :=
  match mutex_lock me (_atomic_mutex s) with
  | Some m' =>
      Done {| _atomic_mutex := m';
              _atomic_count := _atomic_count s;
              trace := trace s ++ [Ev_lock me] |}
  | None => Blocked
  end.

Definition pthread_mutex_unlock (me : tid) (s : state) : state :=
  let '(m', rc) := mutex_unlock me (_atomic_mutex s) in
  {| _atomic_mutex := m';
     _atomic_count := _atomic_count s;
     trace := trace s ++ [Ev_unlock me rc] |}.

Definition store_count (v : Z) (s : state) : state :=
  {| _atomic_mutex := _atomic_mutex s;
     _atomic_count := v;
     trace := trace s ++ [Ev_count v] |}.

Definition fprintf_stderr (msg : string) (s : state) : state :=
  emit (Ev_stderr msg) s.

(** [if(--_atomic_count && type) fprintf(stderr, ...)]: the condition sees
    the decremented value. *)
Definition predec_check (type : Z) (s : state) : state :=
  let v := uint32 (_atomic_count s - 1) in
  let s1 := store_count v s in
  if truthy v && truthy type then fprintf_stderr nested_warning s1 else s1.

(** [if(_atomic_count++ && type) fprintf(stderr, ...)]: the condition sees
    the value before the increment. *)
Definition postinc_check (type : Z) (s : state) : state :=
  let old := _atomic_count s in
  let s1 := store_count (uint32 (old + 1)) s in
  if truthy old && truthy type then fprintf_stderr nested_warning s1 else s1.

(** atomic.h, lines 59-64.  [type] is a [uint8_t]; the callers pass 0 or 1. *)
Definition __sei (me : tid) (type : Z) (s : state) : state :=
  pthread_mutex_unlock me (predec_check type s).

(** atomic.h, lines 66-71 *)
Definition __cli (me : tid) (type : Z) (s : state) : result state :=
  s1 <- pthread_mutex_lock me s ;;
  Done (postinc_check type s1).

(** atomic.h, lines 73-83 *)
Definition __iSeiRetVal (me : tid) (type : Z) (s : state) : result (Z * state) :=
  Done (1, __sei me type s).

Definition __iCliRetVal (me : tid) (type : Z) (s : state) : result (Z * state) :=
  s1 <- __cli me type s ;;
  Done (1, s1).

(** atomic.h, lines 85-95; [type] is the value read through the pointer
    the cleanup handler receives. *)
Definition __iSeiParam (me : tid) (type : Z) (s : state) : result state :=
  Done (__sei me type s).

Definition __iCliParam (me : tid) (type : Z) (s : state) : result state :=
  __cli me type s.

(** ** The guard declarations (atomic.h, lines 267-329)

    Each of the four parameter macros declares
    [uint8_t sreg_save __attribute__((__cleanup__(f))) = v]. *)

Inductive cleanup_fn : Type :=
| Cleanup_iSeiParam
| Cleanup_iCliParam.

Record guard_decl : Type := mkGuard {
  sreg_save_init : Z;
  cleanup : cleanup_fn
}.

Definition ATOMIC_RESTORESTATE : guard_decl :=
  {| sreg_save_init := 0; cleanup := Cleanup_iSeiParam |}.

Definition ATOMIC_FORCEON : guard_decl :=
  {| sreg_save_init := 1; cleanup := Cleanup_iSeiParam |}.

Definition NONATOMIC_RESTORESTATE : guard_decl :=
  {| sreg_save_init := 0; cleanup := Cleanup_iCliParam |}.

Definition NONATOMIC_FORCEOFF : guard_decl :=
  {| sreg_save_init := 1; cleanup := Cleanup_iCliParam |}.

(** The two block macros (atomic.h, lines 228-229 and 249-250). *)
Inductive block_kind : Type :=
| ATOMIC
| NONATOMIC.

(** [__ToDo = __iCliRetVal(sreg_save)] resp. [__ToDo = __iSeiRetVal(sreg_save)] *)
Definition block_init (me : tid) (k : block_kind) (sreg_save : Z) (s : state)
  : result (Z * state) :=
  match k with
  | ATOMIC => __iCliRetVal me sreg_save s
  | NONATOMIC => __iSeiRetVal me sreg_save s
  end.

(** The cleanup handler, called with [&sreg_save] when the variable goes out
    of scope. *)
Definition run_cleanup (me : tid) (f : cleanup_fn) (sreg_save : Z) (s : state)
  : result state :=
  match f with
  | Cleanup_iSeiParam => __iSeiParam me sreg_save s
  | Cleanup_iCliParam => __iCliParam me sreg_save s
  end.

(** ** Code using the blocks

    The statements that matter for the macros: user code that does not touch
    the lock state, sequencing, the three jumps that can leave a block, a
    user loop with a fixed trip count, and the two block macros.  Conditions
    of the user code are taken as resolved: a statement stands for one run. *)

Inductive stmt : Type :=
| Sskip
| Sseq (a b : stmt)
| Sbreak
| Scontinue
| Sreturn
| Srepeat (n : nat) (body : stmt)
| Sblock (k : block_kind) (type : guard_decl) (body : stmt).

Definition ATOMIC_BLOCK (type : guard_decl) (body : stmt) : stmt :=
  Sblock ATOMIC type body.

Definition NONATOMIC_BLOCK (type : guard_decl) (body : stmt) : stmt :=
  Sblock NONATOMIC type body.

Inductive outcome : Type :=
| Normal
| Break
| Continue
| Return.

(** [for ( ...; __ToDo ; __ToDo = 0 ) body]: the loop of the block macros,
    with its loop variable [__ToDo]. *)
Fixpoint block_loop (fuel : nat) (body : state -> result (outcome * state))
    (__ToDo : Z) (s : state) : result (outcome * state) :=
  match fuel with
  | O => OutOfFuel
  | S fuel' =>
      if truthy __ToDo then
        match body s with
        | Done (Normal, s') => block_loop fuel' body 0 s'
        | Done (Continue, s') => block_loop fuel' body 0 s'
        | Done (Break, s') => Done (Normal, s')
        | Done (Return, s') => Done (Return, s')
        | Blocked => Blocked
        | OutOfFuel => OutOfFuel
        end
      else Done (Normal, s)
  end.

(** A user loop running its body at most [n] times. *)
Fixpoint repeat_loop (n : nat) (body : state -> result (outcome * state))
    (s : state) : result (outcome * state) :=
  match n with
  | O => Done (Normal, s)
  | S n' =>
      match body s with
      | Done (Normal, s') => repeat_loop n' body s'
      | Done (Continue, s') => repeat_loop n' body s'
      | Done (Break, s') => Done (Normal, s')
      | Done (Return, s') => Done (Return, s')
      | Blocked => Blocked
      | OutOfFuel => OutOfFuel
      end
  end.

(** Execution by thread [me].  A block declares [sreg_save] (registering its
    cleanup handler), initialises [__ToDo] by the entry call, runs the loop,
    and on leaving the scope of [sreg_save] - whatever the outcome of the
    loop - runs the handler.  A block that waits forever or runs out of fuel
    never leaves its scope. *)
Fixpoint exec (me : tid) (fuel : nat) (p : stmt) (s : state)
  : result (outcome * state) :=
  match p with
  | Sskip => Done (Normal, s)
  | Sseq a b =>
      match exec me fuel a s with
      | Done (Normal, s1) => exec me fuel b s1
      | r => r
      end
  | Sbreak => Done (Break, s)
  | Scontinue => Done (Continue, s)
  | Sreturn => Done (Return, s)
  | Srepeat n body => repeat_loop n (exec me fuel body) s
  | Sblock k type body =>
      let sreg_save := sreg_save_init type in
      '(__ToDo, s1) <- block_init me k sreg_save s ;;
      '(o, s2) <- block_loop fuel (exec me fuel body) __ToDo s1 ;;
      s3 <- run_cleanup me (cleanup type) sreg_save s2 ;;
      Done (o, s3)
  end.

(** The four documented pairings of a block macro with its parameter. *)
Inductive policy : Type :=
| Atomic_Restore
| Atomic_ForceOn
| Nonatomic_Restore
| Nonatomic_ForceOff.

Definition policy_kind (p : policy) : block_kind :=
  match p with
  | Atomic_Restore | Atomic_ForceOn => ATOMIC
  | Nonatomic_Restore | Nonatomic_ForceOff => NONATOMIC
  end.

Definition policy_decl (p : policy) : guard_decl :=
  match p with
  | Atomic_Restore => ATOMIC_RESTORESTATE
  | Atomic_ForceOn => ATOMIC_FORCEON
  | Nonatomic_Restore => NONATOMIC_RESTORESTATE
  | Nonatomic_ForceOff => NONATOMIC_FORCEOFF
  end.

Definition is_force (p : policy) : bool :=
  match p with
  | Atomic_ForceOn | Nonatomic_ForceOff => true
  | Atomic_Restore | Nonatomic_Restore => false
  end.

Definition section (p : policy) (body : stmt) : stmt :=
  Sblock (policy_kind p) (policy_decl p) body.

(** A block macro used with one of its two permitted parameters. *)
Definition permitted (k : block_kind) (type : guard_decl) : bool :=
  match k, cleanup type with
  | ATOMIC, Cleanup_iSeiParam => true
  | NONATOMIC, Cleanup_iCliParam => true
  | _, _ => false
  end.

Fixpoint well_paired (p : stmt) : bool :=
  match p with
  | Sseq a b => well_paired a && well_paired b
  | Srepeat _ body => well_paired body
  | Sblock k type body => permitted k type && well_paired body
  | _ => true
  end.

(** Every [NONATOMIC_BLOCK] lies inside more atomic sections than non-atomic
    ones, counting [d] sections already open around the statement. *)
Fixpoint nonatomic_inside (d : nat) (p : stmt) : bool :=
  match p with
  | Sseq a b => nonatomic_inside d a && nonatomic_inside d b
  | Srepeat _ body => nonatomic_inside d body
  | Sblock ATOMIC _ body => nonatomic_inside (S d) body
  | Sblock NONATOMIC _ body =>
      match d with
      | O => false
      | S d' => nonatomic_inside d' body
      end
  | _ => true
  end.

(** No block macro inside. *)
Fixpoint block_free (p : stmt) : bool :=
  match p with
  | Sseq a b => block_free a && block_free b
  | Srepeat _ body => block_free body
  | Sblock _ _ _ => false
  | _ => true
  end.

(** Outcome of a block whose loop ended with [o]: [break] and [continue]
    are consumed by the macro's own loop. *)
Definition leave (o : outcome) : outcome :=
  match o with
  | Return => Return
  | _ => Normal
  end.

(** Counting events of a trace. *)
Definition is_unlock (e : event) : bool :=
  match e with Ev_unlock _ _ => true | _ => false end.

Definition is_lock (e : event) : bool :=
  match e with Ev_lock _ => true | _ => false end.

Definition count_ev (f : event -> bool) (tr : list event) : nat :=
  length (filter f tr).

(** The same state up to what was printed: mutex, counter, and the trace
    without its [stderr] events. *)
Definition is_silent (e : event) : bool :=
  match e with Ev_stderr _ => false | _ => true end.

Definition same_locking (s s' : state) : Prop :=
  _atomic_mutex s = _atomic_mutex s' /\
  _atomic_count s = _atomic_count s' /\
  filter is_silent (trace s) = filter is_silent (trace s').

(** Lifting a relation to results: same kind of result, related values. *)
Definition result_rel {A : Type} (R : A -> A -> Prop) (r r' : result A) : Prop :=
  match r, r' with
  | Done a, Done a' => R a a'
  | Blocked, Blocked => True
  | OutOfFuel, OutOfFuel => True
  | _, _ => False
  end.

Definition same_locking_out {A : Type} (x y : A * state) : Prop :=
  fst x = fst y /\ same_locking (snd x) (snd y).

Definition cleanup_eqb (f g : cleanup_fn) : bool :=
  match f, g with
  | Cleanup_iSeiParam, Cleanup_iSeiParam => true
  | Cleanup_iCliParam, Cleanup_iCliParam => true
  | _, _ => false
  end.

Definition kind_eqb (k k' : block_kind) : bool :=
  match k, k' with
  | ATOMIC, ATOMIC => true
  | NONATOMIC, NONATOMIC => true
  | _, _ => false
  end.

(** The same statement up to the initial values of the [sreg_save]
    variables: same blocks, same cleanup handlers. *)
Fixpoint same_shape (p p' : stmt) : bool :=
  match p, p' with
  | Sskip, Sskip => true
  | Sseq a b, Sseq a' b' => same_shape a a' && same_shape b b'
  | Sbreak, Sbreak => true
  | Scontinue, Scontinue => true
  | Sreturn, Sreturn => true
  | Srepeat n body, Srepeat n' body' => Nat.eqb n n' && same_shape body body'
  | Sblock k type body, Sblock k' type' body' =>
      kind_eqb k k' && cleanup_eqb (cleanup type) (cleanup type') &&
      same_shape body body'
  | _, _ => false
  end.

(** ** Calls issued by the guards *)

Inductive call : Type :=
| Call_cli (type : Z)
| Call_sei (type : Z).

Definition run_call (me : tid) (c : call) (s : state) : result state :=
  match c with
  | Call_cli type => __cli me type s
  | Call_sei type => Done (__sei me type s)
  end.

Fixpoint run_calls (me : tid) (cs : list call) (s : state) : result state :=
  match cs with
  | [] => Done s
  | c :: cs' => s1 <- run_call me c s ;; run_calls me cs' s1
  end.

Definition entry_call (k : block_kind) (type : guard_decl) : call :=
  match k with
  | ATOMIC => Call_cli (sreg_save_init type)
  | NONATOMIC => Call_sei (sreg_save_init type)
  end.

Definition exit_call (type : guard_decl) : call :=
  match cleanup type with
  | Cleanup_iSeiParam => Call_sei (sreg_save_init type)
  | Cleanup_iCliParam => Call_cli (sreg_save_init type)
  end.

(** The calls a statement issues and the outcome it ends with.  Statements
    have no data-dependent branch, so both are determined by the statement. *)
Fixpoint repeat_path (n : nat) (body : outcome * list call)
  : outcome * list call :=
  match n with
  | O => (Normal, [])
  | S n' =>
      match fst body with
      | Normal | Continue =>
          let '(o, cs) := repeat_path n' body in (o, snd body ++ cs)
      | Break => (Normal, snd body)
      | Return => (Return, snd body)
      end
  end.

Fixpoint path (p : stmt) : outcome * list call :=
  match p with
  | Sskip => (Normal, [])
  | Sseq a b =>
      match path a with
      | (Normal, ca) => let '(o, cb) := path b in (o, ca ++ cb)
      | r => r
      end
  | Sbreak => (Break, [])
  | Scontinue => (Continue, [])
  | Sreturn => (Return, [])
  | Srepeat n body => repeat_path n (path body)
  | Sblock k type body =>
      let '(o, cs) := path body in
      (leave o, entry_call k type :: cs ++ [exit_call type])
  end.

(** Nesting depth after a list of calls started at depth [d]; [None] when a
    [__sei] is called at depth 0. *)
Fixpoint depth_after (d : nat) (cs : list call) : option nat :=
  match cs with
  | [] => Some d
  | Call_cli _ :: cs' => depth_after (S d) cs'
  | Call_sei _ :: cs' =>
      match d with
      | O => None
      | S d' => depth_after d' cs'
      end
  end.

(** Calls to [__cli] minus calls to [__sei]. *)
Fixpoint net (cs : list call) : Z :=
  match cs with
  | [] => 0
  | Call_cli _ :: cs' => net cs' + 1
  | Call_sei _ :: cs' => net cs' - 1
  end.

Definition is_cli (c : call) : bool :=
  match c with Call_cli _ => true | Call_sei _ => false end.

Definition is_sei (c : call) : bool :=
  match c with Call_sei _ => true | Call_cli _ => false end.

(** Number of guards a statement constructs and destroys on its path: every
    block on the path issues its entry call and its exit call. *)
Definition guards_run (p : stmt) : nat := Nat.div2 (length (snd (path p))).

(** ** Threads running in parallel

    The two functions split into their steps, interleaved step by step. *)

Inductive instr : Type :=
| I_lock                  (* pthread_mutex_lock(&_atomic_mutex) *)
| I_postinc (type : Z)    (* if(_atomic_count++ && type) fprintf(...) *)
| I_predec (type : Z)     (* if(--_atomic_count && type) fprintf(...) *)
| I_unlock.               (* pthread_mutex_unlock(&_atomic_mutex) *)

Definition code_of (c : call) : list instr :=
  match c with
  | Call_cli type => [I_lock; I_postinc type]
  | Call_sei type => [I_predec type; I_unlock]
  end.

Definition compile (cs : list call) : list instr := flat_map code_of cs.

Definition exec_instr (me : tid) (i : instr) (s : state) : result state :=
  match i with
  | I_lock => pthread_mutex_lock me s
  | I_postinc type => Done (postinc_check type s)
  | I_predec type => Done (predec_check type s)
  | I_unlock => Done (pthread_mutex_unlock me s)
  end.

Fixpoint run_instrs (me : tid) (l : list instr) (s : state) : result state :=
  match l with
  | [] => Done s
  | i :: l' => s1 <- exec_instr me i s ;; run_instrs me l' s1
  end.


Record config : Type := mkConfig {
  shared : state;
  code : tid -> list instr
}.

Definition set_code (f : tid -> list instr) (t : tid) (l : list instr)
  : tid -> list instr :=
  fun t' => if Nat.eqb t' t then l else f t'.

(** Thread [t] runs its next instruction; a thread waiting for the mutex
    has no step. *)
Inductive step (c : config) (t : tid) (i : instr) : config -> Prop :=
| step_instr (rest : list instr) (s' : state) :
    code c t = i :: rest ->
    exec_instr t i (shared c) = Done s' ->
    step c t i {| shared := s'; code := set_code (code c) t rest |}.

Inductive reachable (c0 : config) : config -> Prop :=
| reach_start : reachable c0 c0
| reach_step (c c' : config) (t : tid) (i : instr) :
    reachable c0 c -> step c t i c' -> reachable c0 c'.

(** Every thread runs a statement from the initial state of atomic.c. *)
Definition start (prog : tid -> stmt) : config :=
  {| shared := initial_state;
     code := fun t => compile (snd (path (prog t))) |}.












(** ** Concrete inputs used below *)

(** The counter as a [__sei] at counter 0 leaves it. *)
Definition counter_at_max : state :=
  {| _atomic_mutex := Free; _atomic_count := 4294967295; trace := [] |}.

(** Thread 0 two sections deep. *)
Definition held_twice : state :=
  {| _atomic_mutex := Held 0%nat 2; _atomic_count := 2; trace := [] |}.

Definition nested_restore : stmt :=
  section Atomic_Restore (section Atomic_Restore Sskip).

(** A [return] out of two sections at once. *)
Definition early_return : stmt :=
  ATOMIC_BLOCK ATOMIC_RESTORESTATE
    (Sseq (NONATOMIC_BLOCK NONATOMIC_RESTORESTATE Sreturn) Sskip).


(** Every thread runs one ATOMIC_BLOCK(ATOMIC_FORCEON). *)
Definition all_atomic (t : tid) : stmt := section Atomic_ForceOn Sskip.


(** ** Further predicates on statements, calls and code *)

Definition call_type (c : call) : Z :=
  match c with
  | Call_cli type => type
  | Call_sei type => type
  end.

(** Every guard of the statement is declared with [sreg_save = 0], as the
    two Restore parameters do. *)
Fixpoint restore_only (p : stmt) : bool :=
  match p with
  | Sseq a b => restore_only a && restore_only b
  | Srepeat _ body => restore_only body
  | Sblock _ type body => (sreg_save_init type =? 0) && restore_only body
  | _ => true
  end.

(** Permitted blocks, seen from [d] open acquisitions: every Non-atomic
    block is entered with at least one acquisition open, and a guard
    declared with a nonzero [sreg_save] is used only where its warning does
    not fire - an Atomic one with none open, a Non-atomic one with exactly
    one open. *)
Fixpoint quiet (d : nat) (p : stmt) : bool :=
  match p with
  | Sseq a b => quiet d a && quiet d b
  | Srepeat _ body => quiet d body
  | Sblock ATOMIC type body =>
      permitted ATOMIC type &&
      ((sreg_save_init type =? 0) || Nat.eqb d 0) &&
      quiet (S d) body
  | Sblock NONATOMIC type body =>
      match d with
      | O => false
      | S d' =>
          permitted NONATOMIC type &&
          ((sreg_save_init type =? 0) || Nat.eqb d' 0) &&
          quiet d' body
      end
  | _ => true
  end.

(** The same condition on a list of calls. *)
Fixpoint quiet_calls (d : nat) (cs : list call) : bool :=
  match cs with
  | [] => true
  | Call_cli type :: cs' =>
      ((type =? 0) || Nat.eqb d 0) && quiet_calls (S d) cs'
  | Call_sei type :: cs' =>
      match d with
      | O => false
      | S d' => ((type =? 0) || Nat.eqb d' 0) && quiet_calls d' cs'
      end
  end.







(** The thread pool of [c] is that of [c0] but for thread [me]. *)
Definition others_as (c c0 : config) (me : tid) : Prop :=
  forall t, t <> me -> code c t = code c0 t.


(** ATOMIC_BLOCK(ATOMIC_FORCEON) around a NONATOMIC_BLOCK(NONATOMIC_FORCEOFF),
    twice in a row. *)
Definition force_pair : stmt :=
  Srepeat 2
    (ATOMIC_BLOCK ATOMIC_FORCEON
       (NONATOMIC_BLOCK NONATOMIC_FORCEOFF Sskip)).

(** ** Leaving a scope by [longjmp]

    C has no exceptions: an error that propagates through a scope is a
    [longjmp] to a [setjmp] point outside it.  [longjmp] is library code,
    modelled by its contract: control leaves every scope between the call
    and the [setjmp] point at once, and GCC runs the [__cleanup__] handlers
    of none of them (handlers run for the scope exits of the language only).
    The statements above are extended by the call; the [setjmp] point lies
    outside the statement. *)

Inductive xoutcome : Type :=
| Ended (o : outcome)
| Jumped.

Inductive xstmt : Type :=
| Xplain (p : stmt)
| Xlongjmp
| Xseq (a b : xstmt)
| Xrepeat (n : nat) (body : xstmt)
| Xblock (k : block_kind) (type : guard_decl) (body : xstmt).

(** The loop of the block macros again; a [longjmp] in the body leaves it
    without running [__ToDo = 0] or the condition. *)
Fixpoint xblock_loop (fuel : nat) (body : state -> result (xoutcome * state))
    (__ToDo : Z) (s : state) : result (xoutcome * state) :=
  match fuel with
  | O => OutOfFuel
  | S fuel' =>
      if truthy __ToDo then
        match body s with
        | Done (Ended Normal, s') => xblock_loop fuel' body 0 s'
        | Done (Ended Continue, s') => xblock_loop fuel' body 0 s'
        | Done (Ended Break, s') => Done (Ended Normal, s')
        | Done (Ended Return, s') => Done (Ended Return, s')
        | Done (Jumped, s') => Done (Jumped, s')
        | Blocked => Blocked
        | OutOfFuel => OutOfFuel
        end
      else Done (Ended Normal, s)
  end.

Fixpoint xrepeat_loop (n : nat) (body : state -> result (xoutcome * state))
    (s : state) : result (xoutcome * state) :=
  match n with
  | O => Done (Ended Normal, s)
  | S n' =>
      match body s with
      | Done (Ended Normal, s') => xrepeat_loop n' body s'
      | Done (Ended Continue, s') => xrepeat_loop n' body s'
      | Done (Ended Break, s') => Done (Ended Normal, s')
      | Done (Ended Return, s') => Done (Ended Return, s')
      | Done (Jumped, s') => Done (Jumped, s')
      | Blocked => Blocked
      | OutOfFuel => OutOfFuel
      end
  end.

(** Execution as [exec], but that a block left by [longjmp] does not run
    its cleanup handler. *)
Fixpoint xexec (me : tid) (fuel : nat) (p : xstmt) (s : state)
  : result (xoutcome * state) :=
  match p with
  | Xplain q => '(o, s') <- exec me fuel q s ;; Done (Ended o, s')
  | Xlongjmp => Done (Jumped, s)
  | Xseq a b =>
      match xexec me fuel a s with
      | Done (Ended Normal, s1) => xexec me fuel b s1
      | r => r
      end
  | Xrepeat n body => xrepeat_loop n (xexec me fuel body) s
  | Xblock k type body =>
      let sreg_save := sreg_save_init type in
      '(__ToDo, s1) <- block_init me k sreg_save s ;;
      '(o, s2) <- xblock_loop fuel (xexec me fuel body) __ToDo s1 ;;
      match o with
      | Jumped => Done (Jumped, s2)
      | Ended o' =>
          s3 <- run_cleanup me (cleanup type) sreg_save s2 ;;
          Done (Ended o', s3)
      end
  end.

(** Outcome of a block whose body ended with [o]. *)
Definition xleave (o : xoutcome) : xoutcome :=
  match o with
  | Ended o' => Ended (leave o')
  | Jumped => Jumped
  end.

Definition jumped (o : xoutcome) : bool :=
  match o with
  | Jumped => true
  | Ended _ => false
  end.

(** The calls an extended statement issues and the outcome it ends with. *)
Fixpoint xrepeat_path (n : nat) (body : xoutcome * list call)
  : xoutcome * list call :=
  match n with
  | O => (Ended Normal, [])
  | S n' =>
      match fst body with
      | Ended Normal | Ended Continue =>
          let '(o, cs) := xrepeat_path n' body in (o, snd body ++ cs)
      | Ended Break => (Ended Normal, snd body)
      | Ended Return => (Ended Return, snd body)
      | Jumped => (Jumped, snd body)
      end
  end.

Fixpoint xpath (p : xstmt) : xoutcome * list call :=
  match p with
  | Xplain q => (Ended (fst (path q)), snd (path q))
  | Xlongjmp => (Jumped, [])
  | Xseq a b =>
      match xpath a with
      | (Ended Normal, ca) => let '(o, cb) := xpath b in (o, ca ++ cb)
      | r => r
      end
  | Xrepeat n body => xrepeat_path n (xpath body)
  | Xblock k type body =>
      let '(o, cs) := xpath body in
      match o with
      | Jumped => (Jumped, entry_call k type :: cs)
      | Ended o' =>
          (Ended (leave o'), entry_call k type :: cs ++ [exit_call type])
      end
  end.

(** The run of the statement ends by [longjmp]. *)
Definition ends_by_longjmp (p : xstmt) : bool := jumped (fst (xpath p)).

Fixpoint xwell_paired (p : xstmt) : bool :=
  match p with
  | Xplain q => well_paired q
  | Xlongjmp => true
  | Xseq a b => xwell_paired a && xwell_paired b
  | Xrepeat _ body => xwell_paired body
  | Xblock k type body => permitted k type && xwell_paired body
  end.

Fixpoint xnonatomic_inside (d : nat) (p : xstmt) : bool :=
  match p with
  | Xplain q => nonatomic_inside d q
  | Xlongjmp => true
  | Xseq a b => xnonatomic_inside d a && xnonatomic_inside d b
  | Xrepeat _ body => xnonatomic_inside d body
  | Xblock ATOMIC _ body => xnonatomic_inside (S d) body
  | Xblock NONATOMIC _ body =>
      match d with
      | O => false
      | S d' => xnonatomic_inside d' body
      end
  end.

(** Guards constructed and destroyed on the path of a statement that does
    not end by [longjmp]. *)
Definition xguards_run (p : xstmt) : nat :=
  Nat.div2 (length (snd (xpath p))).

(** An error raised in the middle of an Atomic section. *)
Definition jump_out_of_restore : xstmt :=
  Xblock ATOMIC ATOMIC_RESTORESTATE Xlongjmp.

Definition jump_out_of_forceon : xstmt :=
  Xblock ATOMIC ATOMIC_FORCEON Xlongjmp.

(** * Properties *)

(** ** The mutex model *)

Lemma mutex_lock_available (me : tid) (m : pthread_mutex_t) :
  available me m = true ->
  exists m', mutex_lock me m = Some m' /\
             held_by me m' = S (held_by me m) /\
             available me m' = true.
Proof.
  destruct m as [|o c]; simpl.
  - intros _. exists (Held me 1). simpl. rewrite Nat.eqb_refl. auto.
  - intros Ho. rewrite Ho. exists (Held o (Pos.succ c)). simpl. rewrite Ho.
    rewrite Pos2Nat.inj_succ. auto.
Qed.

Lemma mutex_lock_waits (me : tid) (m : pthread_mutex_t) :
  available me m = false -> mutex_lock me m = None.
Proof.
  destruct m as [|o c]; simpl; [discriminate|]. intros ->. reflexivity.
Qed.


Lemma mutex_unlock_held (me : tid) (m : pthread_mutex_t) (d : nat) :
  held_by me m = S d ->
  held_by me (fst (mutex_unlock me m)) = d /\
  available me (fst (mutex_unlock me m)) = true /\
  snd (mutex_unlock me m) = 0.
Proof.
  destruct m as [|o c]; simpl; [discriminate|].
  destruct (Nat.eqb o me) eqn:Ho; [|discriminate].
  intros Hc. destruct (Pos.eq_dec c 1) as [->|Hne].
  - simpl. change (Pos.to_nat 1) with 1%nat in Hc.
    repeat split; auto; lia.
  - assert (Hm : match c with
                 | xH => Free
                 | _ => Held o (Pos.pred c)
                 end = Held o (Pos.pred c)) by (destruct c; congruence).
    rewrite Hm. simpl. rewrite Ho. repeat split; auto.
    rewrite Pos2Nat.inj_pred by lia. lia.
Qed.

Lemma mutex_unlock_not_held (me : tid) (m : pthread_mutex_t) :
  held_by me m = 0%nat -> mutex_unlock me m = (m, EPERM).
Proof.
  destruct m as [|o c]; simpl; [reflexivity|].
  destruct (Nat.eqb o me); [|reflexivity]. lia.
Qed.

Lemma mutex_unlock_available (me : tid) (m : pthread_mutex_t) :
  available me m = true -> available me (fst (mutex_unlock me m)) = true.
Proof.
  intros Ha. destruct (held_by me m) as [|d] eqn:Hd.
  - rewrite (mutex_unlock_not_held me m Hd). exact Ha.
  - apply (mutex_unlock_held me m d Hd).
Qed.

(** A mutex that [me] can take is determined by how often [me] holds it. *)
Lemma available_held_by_inj (me : tid) (m m' : pthread_mutex_t) :
  available me m = true -> available me m' = true ->
  held_by me m = held_by me m' -> m = m'.
Proof.
  destruct m as [|o c], m' as [|o' c']; simpl; auto.
  - intros _ ->. lia.
  - intros -> _. lia.
  - intros Ho Ho'. rewrite Ho, Ho'.
    apply Nat.eqb_eq in Ho, Ho'. subst. intros H.
    apply Pos2Nat.inj in H. now subst.
Qed.


(** ** Machine arithmetic of the counter *)

Lemma uint32_small (z : Z) : in_uint32 z -> uint32 z = z.
Proof. unfold in_uint32, uint32. intros H. apply Z.mod_small. exact H. Qed.

Lemma uint32_range (z : Z) : in_uint32 (uint32 z).
Proof.
  unfold in_uint32, uint32, UINT32_MOD. apply Z.mod_pos_bound. reflexivity.
Qed.

Lemma uint32_add (a b : Z) : uint32 (uint32 a + b) = uint32 (a + b).
Proof. unfold uint32. apply Zplus_mod_idemp_l. Qed.

Lemma truthy_true (z : Z) : truthy z = true <-> z <> 0.
Proof.
  unfold truthy. rewrite negb_true_iff. apply Z.eqb_neq.
Qed.

Lemma stderr_of_app (tr tr' : list event) :
  stderr_of (tr ++ tr') = (stderr_of tr ++ stderr_of tr')%list.
Proof.
  induction tr as [|e tr IH]; simpl; [reflexivity|].
  destruct e; simpl; rewrite IH; reflexivity.
Qed.

(** ** [__cli] and [__sei] in closed form *)

Ltac uint32_lit := unfold in_uint32, UINT32_MOD, UINT32_MAX; simpl; lia.

Lemma cli_eq (me : tid) (type : Z) (s : state) (m' : pthread_mutex_t) :
  mutex_lock me (_atomic_mutex s) = Some m' ->
  __cli me type s =
    Done {| _atomic_mutex := m';
            _atomic_count := uint32 (_atomic_count s + 1);
            trace := trace s ++
                     Ev_lock me :: Ev_count (uint32 (_atomic_count s + 1)) ::
                     (if truthy (_atomic_count s) && truthy type
                      then [Ev_stderr nested_warning] else []) |}.
Proof.
  intros Hl. unfold __cli, pthread_mutex_lock. rewrite Hl. simpl.
  unfold postinc_check, store_count, fprintf_stderr, emit. simpl.
  destruct (truthy (_atomic_count s) && truthy type); simpl;
    rewrite <- ?app_assoc; reflexivity.
Qed.

Lemma cli_waits (me : tid) (type : Z) (s : state) :
  available me (_atomic_mutex s) = false -> __cli me type s = Blocked.
Proof.
  intros Ha. unfold __cli, pthread_mutex_lock.
  rewrite (mutex_lock_waits _ _ Ha). reflexivity.
Qed.

Lemma sei_eq (me : tid) (type : Z) (s : state) :
  __sei me type s =
    {| _atomic_mutex := fst (mutex_unlock me (_atomic_mutex s));
       _atomic_count := uint32 (_atomic_count s - 1);
       trace := trace s ++
                Ev_count (uint32 (_atomic_count s - 1)) ::
                (if truthy (uint32 (_atomic_count s - 1)) && truthy type
                 then [Ev_stderr nested_warning] else []) ++
                [Ev_unlock me (snd (mutex_unlock me (_atomic_mutex s)))] |}.
Proof.
  unfold __sei, pthread_mutex_unlock, predec_check, store_count,
    fprintf_stderr, emit.
  destruct (truthy (uint32 (_atomic_count s - 1)) && truthy type); simpl;
    destruct (mutex_unlock me (_atomic_mutex s)); simpl;
    rewrite <- ?app_assoc; reflexivity.
Qed.

Lemma cli_stderr (me : tid) (type : Z) (s s' : state) :
  __cli me type s = Done s' ->
  stderr s' = (stderr s ++
               if truthy (_atomic_count s) && truthy type
               then [nested_warning] else [])%list.
Proof.
  intros H. destruct (mutex_lock me (_atomic_mutex s)) as [m'|] eqn:Hl.
  - rewrite (cli_eq me type s m' Hl) in H. injection H as <-.
    unfold stderr. simpl. rewrite stderr_of_app. simpl.
    destruct (truthy (_atomic_count s) && truthy type); reflexivity.
  - unfold __cli, pthread_mutex_lock in H. rewrite Hl in H. discriminate.
Qed.

Lemma sei_stderr (me : tid) (type : Z) (s : state) :
  stderr (__sei me type s) =
    (stderr s ++
     if truthy (uint32 (_atomic_count s - 1)) && truthy type
     then [nested_warning] else [])%list.
Proof.
  rewrite sei_eq. unfold stderr. simpl. rewrite stderr_of_app. simpl.
  destruct (truthy (uint32 (_atomic_count s - 1)) && truthy type); reflexivity.
Qed.

Lemma sei_count (me : tid) (type : Z) (s : state) :
  _atomic_count (__sei me type s) = uint32 (_atomic_count s - 1).
Proof. rewrite sei_eq. reflexivity. Qed.

Lemma sei_mutex (me : tid) (type : Z) (s : state) :
  _atomic_mutex (__sei me type s) = fst (mutex_unlock me (_atomic_mutex s)).
Proof. rewrite sei_eq. reflexivity. Qed.

Lemma cli_done (me : tid) (type : Z) (s : state) :
  available me (_atomic_mutex s) = true ->
  exists s',
    __cli me type s = Done s' /\
    held_by me (_atomic_mutex s') = S (held_by me (_atomic_mutex s)) /\
    available me (_atomic_mutex s') = true /\
    _atomic_count s' = uint32 (_atomic_count s + 1).
Proof.
  intros Ha. destruct (mutex_lock_available me _ Ha) as (m' & Hl & Hh & Ha').
  eexists. split; [apply (cli_eq me type s m' Hl)|]. simpl. auto.
Qed.

(** ** Acquire: [__cli] *)

(** C3 (as stated) fails where the counter wraps: called with the
    diagnostic argument set and the counter at 4294967295 - the value a
    [__sei] at counter 0 leaves behind - [__cli] prints the warning although
    the incremented counter is 0, not greater than 1. *)
Lemma cli_warning_not_post_increment :
  exists s',
    __cli 0%nat 1 counter_at_max = Done s' /\
    ~ (stderr s' = (stderr counter_at_max ++ [nested_warning])%list <->
       1 <> 0 /\ 1 < _atomic_count s').
Proof.
  eexists. split; [reflexivity|].
  intros [H _]. specialize (H eq_refl). destruct H as [_ H].
  vm_compute in H. discriminate.
Qed.

(** C3 (amended): a call to [__cli] whose caller can take the mutex takes
    it, then stores the incremented counter (modulo 2^32), then prints the
    warning exactly when the argument is nonzero and the counter was nonzero
    before the increment; the call returns normally with or without the
    warning.  Below 4294967295 that condition is the same as the incremented
    counter being greater than 1.  A caller that cannot take the mutex
    waits. *)
Theorem cli_lock_count_warn (me : tid) (type : Z) (s : state) :
  in_uint32 (_atomic_count s) ->
  let c := _atomic_count s in
  let warn := truthy c && truthy type in
  (available me (_atomic_mutex s) = false -> __cli me type s = Blocked) /\
  (available me (_atomic_mutex s) = true ->
   exists m',
     mutex_lock me (_atomic_mutex s) = Some m' /\
     held_by me m' = S (held_by me (_atomic_mutex s)) /\
     __cli me type s =
       Done {| _atomic_mutex := m';
               _atomic_count := uint32 (c + 1);
               trace := trace s ++
                        Ev_lock me :: Ev_count (uint32 (c + 1)) ::
                        (if warn then [Ev_stderr nested_warning] else []) |}) /\
  (warn = true <-> type <> 0 /\ c <> 0) /\
  (c < UINT32_MAX -> (warn = true <-> type <> 0 /\ 1 < uint32 (c + 1))).
Proof.
  intros Hc c warn. split; [apply cli_waits|]. split.
  - intros Ha. destruct (mutex_lock_available me _ Ha) as (m' & Hl & Hh & _).
    exists m'. repeat split; auto. apply cli_eq. exact Hl.
  - assert (Hw : warn = true <-> type <> 0 /\ c <> 0).
    { unfold warn. rewrite andb_true_iff, !truthy_true. tauto. }
    split; [exact Hw|]. intros Hlt. rewrite Hw.
    rewrite uint32_small by (revert Hc Hlt; fold c; uint32_lit).
    unfold in_uint32 in Hc. fold c in Hc. lia.
Qed.

Lemma cli_lock_count_warn_witness :
  in_uint32 (_atomic_count initial_state) /\
  exists m',
    mutex_lock 0%nat Free = Some m' /\
    __cli 0%nat 1 initial_state =
      Done {| _atomic_mutex := m';
              _atomic_count := 1;
              trace := [Ev_lock 0%nat; Ev_count 1] |}.
Proof.
  assert (H : in_uint32 (_atomic_count initial_state)) by uint32_lit.
  split; [exact H|].
  destruct (cli_lock_count_warn 0%nat 1 initial_state H) as (_ & Hdone & _).
  destruct (Hdone eq_refl) as (m' & Hl & _ & Heq).
  exists m'. split; [exact Hl|]. exact Heq.
Defined.

(** ** Release: [__sei] *)

(** C4: a call to [__sei] with the counter at least 1 first stores the
    decremented counter, then prints the warning exactly when the argument
    is nonzero and the counter was greater than 1 before the decrement, and
    only then calls [pthread_mutex_unlock]. *)
Theorem sei_count_warn_unlock (me : tid) (type : Z) (s : state) :
  in_uint32 (_atomic_count s) ->
  1 <= _atomic_count s ->
  let c := _atomic_count s in
  let warn := truthy type && (1 <? c) in
  __sei me type s =
    {| _atomic_mutex := fst (mutex_unlock me (_atomic_mutex s));
       _atomic_count := c - 1;
       trace := trace s ++
                Ev_count (c - 1) ::
                (if warn then [Ev_stderr nested_warning] else []) ++
                [Ev_unlock me (snd (mutex_unlock me (_atomic_mutex s)))] |} /\
  (warn = true <-> type <> 0 /\ 1 < c).
Proof.
  intros Hc H1 c warn. split.
  - rewrite sei_eq. fold c.
    assert (Hs : uint32 (c - 1) = c - 1).
    { apply uint32_small. revert Hc H1. fold c. uint32_lit. }
    rewrite Hs.
    assert (Hw : truthy (c - 1) && truthy type = warn).
    { unfold warn. rewrite andb_comm. f_equal. unfold truthy.
      destruct (Z.eqb_spec (c - 1) 0), (Z.ltb_spec 1 c); simpl; auto; lia. }
    rewrite Hw. reflexivity.
  - unfold warn. rewrite andb_true_iff, truthy_true, Z.ltb_lt. tauto.
Qed.

Lemma sei_count_warn_unlock_witness :
  in_uint32 (_atomic_count held_twice) /\
  1 <= _atomic_count held_twice /\
  __sei 0%nat 1 held_twice =
    {| _atomic_mutex := Held 0%nat 1;
       _atomic_count := 1;
       trace := [Ev_count 1; Ev_stderr nested_warning; Ev_unlock 0%nat 0] |}.
Proof.
  assert (Hc : in_uint32 (_atomic_count held_twice)) by uint32_lit.
  assert (H1 : 1 <= _atomic_count held_twice) by (simpl; lia).
  split; [exact Hc|]. split; [exact H1|].
  exact (proj1 (sei_count_warn_unlock 0%nat 1 held_twice Hc H1)).
Defined.

(** C10: [__sei] called with the counter at 0 stores 4294967295 (the
    unsigned counter wraps, nothing traps); that value being nonzero, the
    warning is printed exactly when the argument is nonzero; and a following
    [__cli] brings the counter back to 0. *)
Theorem sei_at_zero_wraps (me : tid) (type type' : Z) (s : state) :
  _atomic_count s = 0 ->
  available me (_atomic_mutex s) = true ->
  let s1 := __sei me type s in
  _atomic_count s1 = 4294967295 /\
  stderr s1 =
    (stderr s ++ if truthy type then [nested_warning] else [])%list /\
  exists s2, __cli me type' s1 = Done s2 /\ _atomic_count s2 = 0.
Proof.
  intros Hc Ha s1. subst s1. split; [|split].
  - rewrite sei_count, Hc. reflexivity.
  - rewrite sei_stderr, Hc. reflexivity.
  - destruct (cli_done me type' (__sei me type s)) as (s2 & Hs2 & _ & _ & Hc2).
    { rewrite sei_mutex. apply mutex_unlock_available. exact Ha. }
    exists s2. split; [exact Hs2|].
    rewrite Hc2, sei_count, Hc. reflexivity.
Qed.

Lemma sei_at_zero_wraps_witness :
  _atomic_count initial_state = 0 /\
  available 0%nat (_atomic_mutex initial_state) = true /\
  _atomic_count (__sei 0%nat 1 initial_state) = 4294967295 /\
  stderr (__sei 0%nat 1 initial_state) = [nested_warning] /\
  exists s2,
    __cli 0%nat 1 (__sei 0%nat 1 initial_state) = Done s2 /\
    _atomic_count s2 = 0.
Proof.
  split; [reflexivity|]. split; [reflexivity|].
  exact (sei_at_zero_wraps 0%nat 1 1 initial_state eq_refl eq_refl).
Defined.

(** ** The block macros *)

Lemma bind_assoc {A B C : Type} (r : result A) (f : A -> result B)
    (g : B -> result C) :
  bind (bind r f) g = bind r (fun a => bind (f a) g).
Proof. destruct r; reflexivity. Qed.

(** The macro's loop runs its body once, whatever the body's outcome. *)
Lemma block_loop_once (fuel : nat) (body : state -> result (outcome * state))
    (s : state) :
  (2 <= fuel)%nat ->
  block_loop fuel body 1 s = ('(o, s') <- body s ;; Done (leave o, s')).
Proof.
  intros Hf. destruct fuel as [|[|fuel]]; try lia. simpl.
  destruct (body s) as [[o s']| |]; simpl; try reflexivity.
  destruct o; reflexivity.
Qed.

Lemma block_init_eq (me : tid) (k : block_kind) (type : guard_decl) (s : state) :
  block_init me k (sreg_save_init type) s =
    (s1 <- run_call me (entry_call k type) s ;; Done (1, s1)).
Proof. destruct k; reflexivity. Qed.

Lemma run_cleanup_eq (me : tid) (type : guard_decl) (s : state) :
  run_cleanup me (cleanup type) (sreg_save_init type) s =
    run_call me (exit_call type) s.
Proof. unfold run_cleanup, exit_call. destruct (cleanup type); reflexivity. Qed.

Lemma exec_block_eq (me : tid) (fuel : nat) (k : block_kind)
    (type : guard_decl) (body : stmt) (s : state) :
  (2 <= fuel)%nat ->
  exec me fuel (Sblock k type body) s =
    ('(_, s1) <- block_init me k (sreg_save_init type) s ;;
     '(o, s2) <- exec me fuel body s1 ;;
     s3 <- run_cleanup me (cleanup type) (sreg_save_init type) s2 ;;
     Done (leave o, s3)).
Proof.
  intros Hf. simpl. rewrite block_init_eq.
  destruct (run_call me (entry_call k type) s) as [s1| |]; simpl; try reflexivity.
  rewrite (block_loop_once fuel _ s1 Hf).
  destruct (exec me fuel body s1) as [[o s2]| |]; reflexivity.
Qed.

Lemma run_calls_app (me : tid) (cs cs' : list call) (s : state) :
  run_calls me (cs ++ cs') s = (s1 <- run_calls me cs s ;; run_calls me cs' s1).
Proof.
  revert s. induction cs as [|c cs IH]; intros s; simpl; [reflexivity|].
  destruct (run_call me c s) as [s1| |]; simpl; auto.
Qed.

Lemma repeat_loop_path (me : tid) (n : nat)
    (body : state -> result (outcome * state)) (pb : outcome * list call) :
  (forall s, body s = (s' <- run_calls me (snd pb) s ;; Done (fst pb, s'))) ->
  forall s,
    repeat_loop n body s =
      (s' <- run_calls me (snd (repeat_path n pb)) s ;;
       Done (fst (repeat_path n pb), s')).
Proof.
  intros Hb. induction n as [|n IH]; intros s; simpl; [reflexivity|].
  rewrite Hb. destruct pb as [o cs]. simpl in *.
  destruct o; simpl.
  - destruct (repeat_path n (Normal, cs)) as [o' cs'] eqn:E. simpl in *.
    rewrite run_calls_app.
    destruct (run_calls me cs s) as [s1| |]; simpl; auto.
  - destruct (run_calls me cs s); reflexivity.
  - destruct (repeat_path n (Continue, cs)) as [o' cs'] eqn:E. simpl in *.
    rewrite run_calls_app.
    destruct (run_calls me cs s) as [s1| |]; simpl; auto.
  - destruct (run_calls me cs s); reflexivity.
Qed.

(** Running a statement is issuing the calls of its path. *)
Lemma exec_path (me : tid) (fuel : nat) (p : stmt) :
  (2 <= fuel)%nat ->
  forall s,
    exec me fuel p s =
      (s' <- run_calls me (snd (path p)) s ;; Done (fst (path p), s')).
Proof.
  intros Hf. induction p as [|a IHa b IHb| | | |n body IH|k type body IH];
    intros s; try reflexivity.
  - simpl. rewrite IHa. destruct (path a) as [oa ca]. simpl.
    destruct oa; simpl;
      try (destruct (run_calls me ca s); reflexivity).
    destruct (path b) as [ob cb] eqn:Eb. simpl in *.
    rewrite run_calls_app.
    destruct (run_calls me ca s) as [s1| |]; simpl; auto.
  - simpl. apply repeat_loop_path. exact IH.
  - rewrite (exec_block_eq me fuel k type body s Hf).
    rewrite block_init_eq, bind_assoc. simpl.
    destruct (path body) as [o cs] eqn:Eb. simpl in *.
    destruct (run_call me (entry_call k type) s) as [s1| |]; simpl; auto.
    rewrite IH, run_calls_app, !bind_assoc.
    destruct (run_calls me cs s1) as [s2| |]; simpl; auto.
    rewrite run_cleanup_eq.
    destruct (run_call me (exit_call type) s2); reflexivity.
Qed.

(** ** Lists of calls *)

Lemma cli_inv (me : tid) (type : Z) (s s' : state) :
  __cli me type s = Done s' ->
  exists m',
    mutex_lock me (_atomic_mutex s) = Some m' /\
    s' = {| _atomic_mutex := m';
            _atomic_count := uint32 (_atomic_count s + 1);
            trace := trace s ++
                     Ev_lock me :: Ev_count (uint32 (_atomic_count s + 1)) ::
                     (if truthy (_atomic_count s) && truthy type
                      then [Ev_stderr nested_warning] else []) |}.
Proof.
  intros H. destruct (mutex_lock me (_atomic_mutex s)) as [m'|] eqn:Hl.
  - rewrite (cli_eq me type s m' Hl) in H. injection H as <-. eauto.
  - unfold __cli, pthread_mutex_lock in H. rewrite Hl in H. discriminate.
Qed.

Lemma count_ev_app (f : event -> bool) (tr tr' : list event) :
  count_ev f (tr ++ tr') = (count_ev f tr + count_ev f tr')%nat.
Proof. unfold count_ev. rewrite filter_app, length_app. reflexivity. Qed.

Lemma run_call_available (me : tid) (c : call) (s : state) :
  available me (_atomic_mutex s) = true ->
  exists s', run_call me c s = Done s' /\
             available me (_atomic_mutex s') = true.
Proof.
  intros Ha. destruct c as [type|type]; simpl.
  - destruct (cli_done me type s Ha) as (s' & H & _ & Ha' & _). eauto.
  - eexists. split; [reflexivity|]. rewrite sei_mutex.
    apply mutex_unlock_available. exact Ha.
Qed.

(** A thread that is not kept waiting at the start is never kept waiting. *)
Lemma run_calls_available (me : tid) (cs : list call) (s : state) :
  available me (_atomic_mutex s) = true ->
  exists s', run_calls me cs s = Done s' /\
             available me (_atomic_mutex s') = true.
Proof.
  revert s. induction cs as [|c cs IH]; intros s Ha; simpl; [eauto|].
  destruct (run_call_available me c s Ha) as (s1 & H1 & Ha1).
  rewrite H1. simpl. apply IH. exact Ha1.
Qed.

Lemma run_call_count (me : tid) (c : call) (s s' : state) :
  run_call me c s = Done s' ->
  _atomic_count s' = uint32 (_atomic_count s + net [c]).
Proof.
  destruct c as [type|type]; simpl; intros H.
  - destruct (cli_inv _ _ _ _ H) as (m' & _ & ->). reflexivity.
  - injection H as <-. rewrite sei_count. reflexivity.
Qed.

Lemma net_cons (c : call) (cs : list call) : net (c :: cs) = net [c] + net cs.
Proof. destruct c; cbn [net]; lia. Qed.

Lemma net_app (cs cs' : list call) : net (cs ++ cs') = net cs + net cs'.
Proof.
  induction cs as [|c cs IH]; [reflexivity|].
  rewrite <- app_comm_cons, (net_cons c (cs ++ cs')), (net_cons c cs), IH. lia.
Qed.

Lemma run_calls_count (me : tid) (cs : list call) (s s' : state) :
  run_calls me cs s = Done s' ->
  uint32 (_atomic_count s') = uint32 (_atomic_count s + net cs).
Proof.
  revert s. induction cs as [|c cs IH]; intros s H.
  - injection H as <-. simpl. rewrite Z.add_0_r. reflexivity.
  - simpl in H. destruct (run_call me c s) as [s1| |] eqn:H1; try discriminate.
    simpl in H. rewrite (IH s1 H), (run_call_count _ _ _ _ H1), uint32_add.
    rewrite (net_cons c cs). f_equal. lia.
Qed.

Lemma run_call_range (me : tid) (c : call) (s s' : state) :
  run_call me c s = Done s' -> in_uint32 (_atomic_count s').
Proof.
  intros H. rewrite (run_call_count _ _ _ _ H). apply uint32_range.
Qed.

Lemma run_calls_range (me : tid) (cs : list call) (s s' : state) :
  in_uint32 (_atomic_count s) ->
  run_calls me cs s = Done s' -> in_uint32 (_atomic_count s').
Proof.
  revert s. induction cs as [|c cs IH]; intros s Hc H.
  - injection H as <-. exact Hc.
  - simpl in H. destruct (run_call me c s) as [s1| |] eqn:H1; try discriminate.
    apply (IH s1); [apply (run_call_range _ _ _ _ H1)|exact H].
Qed.

(** Calls that pair up leave the counter where it was. *)
Lemma run_calls_count_net0 (me : tid) (cs : list call) (s s' : state) :
  in_uint32 (_atomic_count s) -> net cs = 0 ->
  run_calls me cs s = Done s' -> _atomic_count s' = _atomic_count s.
Proof.
  intros Hc Hn H.
  rewrite <- (uint32_small _ (run_calls_range _ _ _ _ Hc H)).
  rewrite (run_calls_count _ _ _ _ H), Hn, Z.add_0_r.
  apply uint32_small. exact Hc.
Qed.

Lemma run_call_events (me : tid) (c : call) (s s' : state) :
  run_call me c s = Done s' ->
  count_ev is_lock (trace s') =
    (count_ev is_lock (trace s) + length (filter is_cli [c]))%nat /\
  count_ev is_unlock (trace s') =
    (count_ev is_unlock (trace s) + length (filter is_sei [c]))%nat.
Proof.
  destruct c as [type|type]; simpl; intros H.
  - destruct (cli_inv _ _ _ _ H) as (m' & _ & ->). simpl.
    rewrite !count_ev_app.
    destruct (truthy (_atomic_count s) && truthy type); split; reflexivity.
  - injection H as <-. rewrite sei_eq. simpl. rewrite !count_ev_app.
    destruct (truthy (uint32 (_atomic_count s - 1)) && truthy type);
      split; reflexivity.
Qed.

(** One [Ev_lock] per [__cli] returned, one [Ev_unlock] per [__sei]. *)
Lemma run_calls_events (me : tid) (cs : list call) (s s' : state) :
  run_calls me cs s = Done s' ->
  count_ev is_lock (trace s') =
    (count_ev is_lock (trace s) + length (filter is_cli cs))%nat /\
  count_ev is_unlock (trace s') =
    (count_ev is_unlock (trace s) + length (filter is_sei cs))%nat.
Proof.
  revert s. induction cs as [|c cs IH]; intros s H.
  - injection H as <-. simpl. split; lia.
  - simpl in H. destruct (run_call me c s) as [s1| |] eqn:H1; try discriminate.
    simpl in H. destruct (IH s1 H) as [E1 E2].
    destruct (run_call_events _ _ _ _ H1) as [F1 F2].
    rewrite E1, E2, F1, F2. destruct c; simpl; split; lia.
Qed.

Lemma net_counts (cs : list call) :
  net cs = Z.of_nat (length (filter is_cli cs)) -
           Z.of_nat (length (filter is_sei cs)).
Proof.
  induction cs as [|[type|type] cs IH]; cbn [net filter is_cli is_sei length];
    [reflexivity| |]; lia.
Qed.

Lemma depth_after_app (d : nat) (cs cs' : list call) :
  depth_after d (cs ++ cs') =
    match depth_after d cs with
    | Some d1 => depth_after d1 cs'
    | None => None
    end.
Proof.
  revert d. induction cs as [|[type|type] cs IH]; intros d; simpl; auto.
  destruct d; auto.
Qed.

(** Calls that never release at depth 0 move the recursion level of the
    mutex as they move the nesting depth. *)
Lemma run_calls_depth (me : tid) (cs : list call) (d d' : nat) (s : state) :
  depth_after d cs = Some d' ->
  held_by me (_atomic_mutex s) = d ->
  available me (_atomic_mutex s) = true ->
  exists s',
    run_calls me cs s = Done s' /\
    held_by me (_atomic_mutex s') = d' /\
    available me (_atomic_mutex s') = true.
Proof.
  revert d s. induction cs as [|[type|type] cs IH]; intros d s Hd Hh Ha; simpl in *.
  - injection Hd as <-. eauto.
  - destruct (cli_done me type s Ha) as (s1 & H1 & Hh1 & Ha1 & _).
    rewrite H1. simpl. apply (IH (S d)); auto. rewrite Hh1, Hh. reflexivity.
  - destruct d as [|d]; [discriminate|].
    destruct (mutex_unlock_held me _ d Hh) as (Hh1 & Ha1 & _).
    apply (IH d); auto; rewrite sei_mutex; auto.
Qed.

(** ** Paths of statements built from permitted blocks *)

Lemma repeat_path_net (n : nat) (pb : outcome * list call) :
  net (snd pb) = 0 -> net (snd (repeat_path n pb)) = 0.
Proof.
  intros Hb. induction n as [|n IH]; simpl; [reflexivity|].
  destruct pb as [o cs]. simpl in *.
  destruct o; simpl; auto;
    destruct (repeat_path n _) as [o' cs']; simpl in *;
    rewrite net_app; lia.
Qed.

Lemma path_net (p : stmt) : well_paired p = true -> net (snd (path p)) = 0.
Proof.
  induction p as [|a IHa b IHb| | | |n body IH|k type body IH]; simpl;
    intros Hw; try reflexivity.
  - apply andb_true_iff in Hw. destruct Hw as [Ha Hb].
    specialize (IHa Ha). specialize (IHb Hb).
    destruct (path a) as [oa ca]. simpl in *.
    destruct oa; simpl; auto.
    destruct (path b) as [ob cb]. simpl in *. rewrite net_app. lia.
  - apply repeat_path_net. auto.
  - apply andb_true_iff in Hw. destruct Hw as [Hp Hb]. specialize (IH Hb).
    destruct (path body) as [o cs]. cbn [snd] in *.
    rewrite (net_cons (entry_call k type)), net_app, IH.
    unfold permitted in Hp. unfold entry_call, exit_call.
    destruct k, (cleanup type); try discriminate; cbn [net]; lia.
Qed.

Lemma repeat_path_depth (n d : nat) (pb : outcome * list call) :
  depth_after d (snd pb) = Some d ->
  depth_after d (snd (repeat_path n pb)) = Some d.
Proof.
  intros Hb. induction n as [|n IH]; simpl; [reflexivity|].
  destruct pb as [o cs]. simpl in *.
  destruct o; simpl; auto;
    destruct (repeat_path n _) as [o' cs']; simpl in *;
    rewrite depth_after_app, Hb; exact IH.
Qed.

Lemma path_depth (p : stmt) (d : nat) :
  well_paired p = true -> nonatomic_inside d p = true ->
  depth_after d (snd (path p)) = Some d.
Proof.
  revert d.
  induction p as [|a IHa b IHb| | | |n body IH|k type body IH]; simpl;
    intros d Hw Hn; try reflexivity.
  - apply andb_true_iff in Hw, Hn. destruct Hw as [Hwa Hwb], Hn as [Hna Hnb].
    specialize (IHa d Hwa Hna). specialize (IHb d Hwb Hnb).
    destruct (path a) as [oa ca]. simpl in *.
    destruct oa; simpl; auto.
    destruct (path b) as [ob cb]. simpl in *.
    rewrite depth_after_app, IHa. exact IHb.
  - apply repeat_path_depth. auto.
  - apply andb_true_iff in Hw. destruct Hw as [Hp Hb].
    unfold permitted in Hp. unfold entry_call, exit_call.
    destruct k, (cleanup type) eqn:Hc; try discriminate.
    + specialize (IH (S d) Hb Hn).
      destruct (path body) as [o cs]. simpl in *.
      rewrite depth_after_app, IH. reflexivity.
    + destruct d as [|d]; [discriminate|]. specialize (IH d Hb Hn).
      destruct (path body) as [o cs]. simpl in *.
      rewrite depth_after_app, IH. reflexivity.
Qed.

Lemma path_block_free (p : stmt) : block_free p = true -> snd (path p) = [].
Proof.
  induction p as [|a IHa b IHb| | | |n body IH|k type body IH]; simpl;
    intros Hb; try reflexivity; try discriminate.
  - apply andb_true_iff in Hb. destruct Hb as [Ha Hb].
    specialize (IHa Ha). specialize (IHb Hb).
    destruct (path a) as [oa ca]. simpl in *. subst ca.
    destruct oa; simpl; auto.
    destruct (path b) as [ob cb]. simpl in *. exact IHb.
  - specialize (IH Hb). destruct (path body) as [o cs]. simpl in *. subst cs.
    induction n as [|n IHn]; simpl; [reflexivity|].
    destruct o; simpl; auto;
      destruct (repeat_path n _) as [o' cs']; simpl in *; exact IHn.
Qed.

Lemma calls_split (cs : list call) :
  length cs = (length (filter is_cli cs) + length (filter is_sei cs))%nat.
Proof.
  induction cs as [|[type|type] cs IH]; simpl; lia.
Qed.

Lemma guards_run_block (k : block_kind) (type : guard_decl) (body : stmt) :
  guards_run (Sblock k type body) = S (guards_run body).
Proof.
  unfold guards_run. cbn [path]. destruct (path body) as [o cs].
  cbn [snd length]. rewrite length_app. cbn [length].
  replace (length cs + 1)%nat with (S (length cs)) by lia. reflexivity.
Qed.

(** In a statement of permitted blocks each guard on the path accounts for
    one [__cli] and one [__sei]. *)
Lemma path_calls_per_guard (p : stmt) :
  well_paired p = true ->
  length (filter is_cli (snd (path p))) = guards_run p /\
  length (filter is_sei (snd (path p))) = guards_run p.
Proof.
  intros Hw. pose proof (path_net p Hw) as Hn. rewrite net_counts in Hn.
  unfold guards_run. rewrite (calls_split (snd (path p))).
  assert (E : length (filter is_cli (snd (path p))) =
              length (filter is_sei (snd (path p)))) by lia.
  rewrite E.
  replace (length (filter is_sei (snd (path p))) +
           length (filter is_sei (snd (path p))))%nat
    with (2 * length (filter is_sei (snd (path p))))%nat by lia.
  rewrite Nat.div2_double. auto.
Qed.

(** What running a statement of permitted blocks does to the lock state. *)
Lemma exec_well_paired (me : tid) (fuel : nat) (p : stmt) (s : state) :
  (2 <= fuel)%nat ->
  well_paired p = true ->
  available me (_atomic_mutex s) = true ->
  in_uint32 (_atomic_count s) ->
  exists s',
    exec me fuel p s = Done (fst (path p), s') /\
    available me (_atomic_mutex s') = true /\
    _atomic_count s' = _atomic_count s /\
    count_ev is_lock (trace s') =
      (count_ev is_lock (trace s) + guards_run p)%nat /\
    count_ev is_unlock (trace s') =
      (count_ev is_unlock (trace s) + guards_run p)%nat /\
    (nonatomic_inside (held_by me (_atomic_mutex s)) p = true ->
     _atomic_mutex s' = _atomic_mutex s).
Proof.
  intros Hf Hw Ha Hc.
  destruct (run_calls_available me (snd (path p)) s Ha) as (s' & Hr & Ha').
  pose proof (path_net p Hw) as Hn.
  destruct (run_calls_events _ _ _ _ Hr) as [El Eu].
  destruct (path_calls_per_guard p Hw) as [Gl Gu].
  exists s'.
  split; [rewrite (exec_path me fuel p Hf), Hr; reflexivity|].
  split; [exact Ha'|].
  split; [apply (run_calls_count_net0 _ _ _ _ Hc Hn Hr)|].
  split; [rewrite El, Gl; reflexivity|].
  split; [rewrite Eu, Gu; reflexivity|].
  intros Hin.
  destruct (run_calls_depth me _ _ _ s (path_depth p _ Hw Hin) eq_refl Ha)
    as (s2 & Hr2 & Hh2 & _).
  rewrite Hr in Hr2. injection Hr2 as <-.
  symmetry. apply (available_held_by_inj me); auto.
Qed.

(** ** States that differ in what was printed only *)

Lemma same_locking_refl (s : state) : same_locking s s.
Proof. repeat split. Qed.

Lemma silent_warning (w : bool) :
  filter is_silent (if w then [Ev_stderr nested_warning] else []) = [].
Proof. destruct w; reflexivity. Qed.

Lemma cli_same_locking (me : tid) (type type' : Z) (s s' : state) :
  same_locking s s' ->
  result_rel same_locking (__cli me type s) (__cli me type' s').
Proof.
  intros (Hm & Hc & Ht).
  destruct (mutex_lock me (_atomic_mutex s)) as [m1|] eqn:Hl.
  - rewrite (cli_eq me type s m1 Hl).
    rewrite Hm in Hl. rewrite (cli_eq me type' s' m1 Hl). simpl.
    repeat split; simpl; [congruence|].
    rewrite !filter_app, Ht, Hc. cbn [filter is_silent].
    rewrite !silent_warning. reflexivity.
  - unfold __cli, pthread_mutex_lock. rewrite <- Hm, Hl. exact I.
Qed.

Lemma sei_same_locking (me : tid) (type type' : Z) (s s' : state) :
  same_locking s s' -> same_locking (__sei me type s) (__sei me type' s').
Proof.
  intros (Hm & Hc & Ht). rewrite !sei_eq.
  repeat split; simpl; [congruence|congruence|].
  rewrite !filter_app, Ht, Hc, Hm. cbn [filter is_silent].
  rewrite !filter_app, !silent_warning. reflexivity.
Qed.

Lemma block_init_same_locking (me : tid) (k : block_kind) (v v' : Z)
    (s s' : state) :
  same_locking s s' ->
  result_rel same_locking_out (block_init me k v s) (block_init me k v' s').
Proof.
  intros H. destruct k; simpl.
  - unfold __iCliRetVal. pose proof (cli_same_locking me v v' s s' H) as Hr.
    destruct (__cli me v s), (__cli me v' s'); simpl in *; auto.
    split; auto.
  - split; [reflexivity|]. apply sei_same_locking. exact H.
Qed.

Lemma run_cleanup_same_locking (me : tid) (f : cleanup_fn) (v v' : Z)
    (s s' : state) :
  same_locking s s' ->
  result_rel same_locking (run_cleanup me f v s) (run_cleanup me f v' s').
Proof.
  intros H. destruct f; simpl.
  - apply sei_same_locking. exact H.
  - apply cli_same_locking. exact H.
Qed.

Ltac rel_cases H :=
  match type of H with
  | result_rel _ ?r ?r' =>
      destruct r as [[? ?]| |], r' as [[? ?]| |]; simpl in H;
      try contradiction; try exact I
  end.

Section LoopsRelated.
Variables body body' : state -> result (outcome * state).
Hypothesis body_rel : forall s s',
  same_locking s s' -> result_rel same_locking_out (body s) (body' s').

Lemma block_loop_rel (fuel : nat) (todo : Z) (s s' : state) :
  same_locking s s' ->
  result_rel same_locking_out
    (block_loop fuel body todo s) (block_loop fuel body' todo s').
Proof.
  revert todo s s'. induction fuel as [|fuel IH]; intros todo s s' H; simpl.
  - exact I.
  - destruct (truthy todo); [|split; [reflexivity|exact H]].
    pose proof (body_rel s s' H) as Hb. rel_cases Hb.
    destruct Hb as [Ho Hs]. simpl in Ho, Hs. subst.
    match goal with o : outcome |- _ => destruct o end;
      try (apply IH; exact Hs); split; auto.
Qed.

Lemma repeat_loop_rel (n : nat) (s s' : state) :
  same_locking s s' ->
  result_rel same_locking_out
    (repeat_loop n body s) (repeat_loop n body' s').
Proof.
  revert s s'. induction n as [|n IH]; intros s s' H; simpl.
  - split; [reflexivity|exact H].
  - pose proof (body_rel s s' H) as Hb. rel_cases Hb.
    destruct Hb as [Ho Hs]. simpl in Ho, Hs. subst.
    match goal with o : outcome |- _ => destruct o end;
      try (apply IH; exact Hs); split; auto.
Qed.
End LoopsRelated.

(** Statements of the same shape make the same transitions of mutex and
    counter and the same lock, unlock and counter events. *)
Lemma exec_same_shape (me : tid) (fuel : nat) (p p' : stmt) :
  same_shape p p' = true ->
  forall s s',
    same_locking s s' ->
    result_rel same_locking_out (exec me fuel p s) (exec me fuel p' s').
Proof.
  revert p'.
  induction p as [|a IHa b IHb| | | |n body IH|k type body IH];
    intros p' Hs; destruct p' as [|a' b'| | | |n' body'|k' type' body'];
    try discriminate; intros s s' H; simpl in Hs;
    try (split; [reflexivity|exact H]).
  - apply andb_true_iff in Hs. destruct Hs as [Ha Hb]. simpl.
    pose proof (IHa a' Ha s s' H) as Hr. rel_cases Hr.
    destruct Hr as [Ho Hr]. simpl in Ho, Hr. subst.
    match goal with o : outcome |- _ => destruct o end;
      try (apply IHb; auto); split; auto.
  - apply andb_true_iff in Hs. destruct Hs as [Hn Hb].
    apply Nat.eqb_eq in Hn. subst n'. simpl.
    apply repeat_loop_rel; auto.
  - apply andb_true_iff in Hs. destruct Hs as [Hs Hb].
    apply andb_true_iff in Hs. destruct Hs as [Hk Hc].
    assert (k' = k) by (destruct k, k'; try discriminate; reflexivity).
    assert (Hcl : cleanup type' = cleanup type)
      by (destruct (cleanup type), (cleanup type'); try discriminate; reflexivity).
    subst k'. cbn [exec].
    pose proof (block_init_same_locking me k (sreg_save_init type)
                  (sreg_save_init type') s s' H) as Hi.
    destruct (block_init me k (sreg_save_init type) s) as [[t1 s1]| |],
             (block_init me k (sreg_save_init type') s') as [[t1' s1']| |];
      simpl in Hi; try contradiction; try exact I.
    destruct Hi as [Ho Hi]. simpl in Ho, Hi. subst t1'. cbn [bind].
    pose proof (block_loop_rel _ _ (IH body' Hb) fuel t1 s1 s1' Hi) as Hl.
    destruct (block_loop fuel (exec me fuel body) t1 s1) as [[o2 s2]| |],
             (block_loop fuel (exec me fuel body') t1 s1') as [[o2' s2']| |];
      simpl in Hl; try contradiction; try exact I.
    destruct Hl as [Ho Hl]. simpl in Ho, Hl. subst o2'. cbn [bind].
    rewrite Hcl.
    pose proof (run_cleanup_same_locking me (cleanup type)
                  (sreg_save_init type) (sreg_save_init type') s2 s2' Hl) as Hc'.
    destruct (run_cleanup me (cleanup type) (sreg_save_init type) s2),
             (run_cleanup me (cleanup type) (sreg_save_init type') s2');
      simpl in Hc'; try contradiction; try exact I.
    split; [reflexivity|exact Hc'].
Qed.

Lemma same_shape_refl (p : stmt) : same_shape p p = true.
Proof.
  induction p as [|a IHa b IHb| | | |n body IH|k type body IH]; simpl; auto.
  - rewrite IHa, IHb. reflexivity.
  - rewrite Nat.eqb_refl, IH. reflexivity.
  - rewrite IH. destruct k, (cleanup type); reflexivity.
Qed.

(** ** Scopes left by [longjmp] *)

Lemma xblock_loop_once (fuel : nat)
    (body : state -> result (xoutcome * state)) (s : state) :
  (2 <= fuel)%nat ->
  xblock_loop fuel body 1 s = ('(o, s') <- body s ;; Done (xleave o, s')).
Proof.
  intros Hf. destruct fuel as [|[|fuel]]; try lia. simpl.
  destruct (body s) as [[o s']| |]; simpl; try reflexivity.
  destruct o as [o|]; [destruct o|]; reflexivity.
Qed.

Lemma xexec_block_eq (me : tid) (fuel : nat) (k : block_kind)
    (type : guard_decl) (body : xstmt) (s : state) :
  (2 <= fuel)%nat ->
  xexec me fuel (Xblock k type body) s =
    ('(_, s1) <- block_init me k (sreg_save_init type) s ;;
     '(o, s2) <- xexec me fuel body s1 ;;
     match o with
     | Jumped => Done (Jumped, s2)
     | Ended o' =>
         s3 <- run_cleanup me (cleanup type) (sreg_save_init type) s2 ;;
         Done (Ended (leave o'), s3)
     end).
Proof.
  intros Hf. cbn [xexec]. rewrite block_init_eq.
  destruct (run_call me (entry_call k type) s) as [s1| |]; simpl;
    try reflexivity.
  rewrite (xblock_loop_once fuel _ s1 Hf).
  destruct (xexec me fuel body s1) as [[o s2]| |]; simpl; try reflexivity.
  destruct o as [o|]; reflexivity.
Qed.

Lemma xrepeat_loop_path (me : tid) (n : nat)
    (body : state -> result (xoutcome * state)) (pb : xoutcome * list call) :
  (forall s, body s = (s' <- run_calls me (snd pb) s ;; Done (fst pb, s'))) ->
  forall s,
    xrepeat_loop n body s =
      (s' <- run_calls me (snd (xrepeat_path n pb)) s ;;
       Done (fst (xrepeat_path n pb), s')).
Proof.
  intros Hb. induction n as [|n IH]; intros s; simpl; [reflexivity|].
  rewrite Hb. destruct pb as [o cs]. simpl in *.
  destruct o as [o|]; [destruct o|]; simpl.
  - destruct (xrepeat_path n (Ended Normal, cs)) as [o' cs'] eqn:E.
    simpl in *. rewrite run_calls_app.
    destruct (run_calls me cs s) as [s1| |]; simpl; auto.
  - destruct (run_calls me cs s); reflexivity.
  - destruct (xrepeat_path n (Ended Continue, cs)) as [o' cs'] eqn:E.
    simpl in *. rewrite run_calls_app.
    destruct (run_calls me cs s) as [s1| |]; simpl; auto.
  - destruct (run_calls me cs s); reflexivity.
  - destruct (run_calls me cs s); reflexivity.
Qed.

(** Running an extended statement is issuing the calls of its path. *)
Lemma xexec_path (me : tid) (fuel : nat) (p : xstmt) :
  (2 <= fuel)%nat ->
  forall s,
    xexec me fuel p s =
      (s' <- run_calls me (snd (xpath p)) s ;; Done (fst (xpath p), s')).
Proof.
  intros Hf. induction p as [q| |a IHa b IHb|n body IH|k type body IH];
    intros s.
  - cbn [xexec xpath fst snd]. rewrite (exec_path me fuel q Hf).
    destruct (run_calls me (snd (path q)) s); reflexivity.
  - reflexivity.
  - cbn [xexec xpath]. rewrite IHa. destruct (xpath a) as [oa ca]. simpl.
    destruct oa as [oa|]; [destruct oa|]; simpl;
      try (destruct (run_calls me ca s); reflexivity).
    destruct (xpath b) as [ob cb] eqn:Eb. simpl in *.
    rewrite run_calls_app.
    destruct (run_calls me ca s) as [s1| |]; simpl; auto.
  - cbn [xexec xpath]. apply xrepeat_loop_path. exact IH.
  - rewrite (xexec_block_eq me fuel k type body s Hf).
    rewrite block_init_eq, bind_assoc. cbn [xpath].
    destruct (xpath body) as [o cs] eqn:Eb. simpl in IH.
    destruct (run_call me (entry_call k type) s) as [s1| |] eqn:E1;
      [|destruct o; cbn [snd run_calls]; rewrite E1; reflexivity
       |destruct o; cbn [snd run_calls]; rewrite E1; reflexivity].
    cbn [bind]. rewrite IH.
    destruct o as [o|]; cbn [snd fst run_calls]; rewrite E1; cbn [bind].
    + rewrite run_calls_app.
      destruct (run_calls me cs s1) as [s2| |]; simpl; auto.
      rewrite run_cleanup_eq.
      destruct (run_call me (exit_call type) s2); reflexivity.
    + destruct (run_calls me cs s1) as [s2| |]; reflexivity.
Qed.

Lemma xrepeat_path_net (n : nat) (pb : xoutcome * list call) :
  (jumped (fst pb) = false -> net (snd pb) = 0) ->
  jumped (fst (xrepeat_path n pb)) = false ->
  net (snd (xrepeat_path n pb)) = 0.
Proof.
  intros Hb. induction n as [|n IH]; simpl; [reflexivity|].
  destruct pb as [o cs]. simpl in *.
  destruct o as [o|]; [destruct o|]; simpl; auto;
    destruct (xrepeat_path n _) as [o' cs']; simpl in *;
    intros Hj; rewrite net_app, (Hb eq_refl), (IH Hj); reflexivity.
Qed.

Lemma xpath_net (p : xstmt) :
  xwell_paired p = true -> ends_by_longjmp p = false ->
  net (snd (xpath p)) = 0.
Proof.
  unfold ends_by_longjmp.
  induction p as [q| |a IHa b IHb|n body IH|k type body IH];
    cbn [xwell_paired xpath]; intros Hw Hj.
  - apply path_net. exact Hw.
  - discriminate.
  - apply andb_true_iff in Hw. destruct Hw as [Ha Hb].
    specialize (IHa Ha). specialize (IHb Hb).
    destruct (xpath a) as [oa ca]. simpl in *.
    destruct oa as [oa|]; [destruct oa|]; simpl in *; auto.
    destruct (xpath b) as [ob cb]. simpl in *.
    rewrite net_app, (IHa eq_refl), (IHb Hj). reflexivity.
  - apply xrepeat_path_net; auto.
  - apply andb_true_iff in Hw. destruct Hw as [Hp Hb]. specialize (IH Hb).
    destruct (xpath body) as [o cs]. cbn [fst snd] in *.
    destruct o as [o|]; [|discriminate]. cbn [snd].
    rewrite (net_cons (entry_call k type)), net_app, (IH eq_refl).
    unfold permitted in Hp. unfold entry_call, exit_call.
    destruct k, (cleanup type); try discriminate; cbn [net]; lia.
Qed.

Lemma xrepeat_path_depth (n d : nat) (pb : xoutcome * list call) :
  (jumped (fst pb) = false -> depth_after d (snd pb) = Some d) ->
  jumped (fst (xrepeat_path n pb)) = false ->
  depth_after d (snd (xrepeat_path n pb)) = Some d.
Proof.
  intros Hb. induction n as [|n IH]; simpl; [reflexivity|].
  destruct pb as [o cs]. simpl in *.
  destruct o as [o|]; [destruct o|]; simpl; auto;
    destruct (xrepeat_path n _) as [o' cs']; simpl in *;
    intros Hj; rewrite depth_after_app, (Hb eq_refl); exact (IH Hj).
Qed.

Lemma xpath_depth (p : xstmt) (d : nat) :
  xwell_paired p = true -> xnonatomic_inside d p = true ->
  ends_by_longjmp p = false ->
  depth_after d (snd (xpath p)) = Some d.
Proof.
  unfold ends_by_longjmp. revert d.
  induction p as [q| |a IHa b IHb|n body IH|k type body IH];
    cbn [xwell_paired xnonatomic_inside xpath]; intros d Hw Hn Hj.
  - apply path_depth; assumption.
  - discriminate.
  - apply andb_true_iff in Hw, Hn. destruct Hw as [Hwa Hwb], Hn as [Hna Hnb].
    specialize (IHa d Hwa Hna). specialize (IHb d Hwb Hnb).
    destruct (xpath a) as [oa ca]. simpl in *.
    destruct oa as [oa|]; [destruct oa|]; simpl in *; auto.
    destruct (xpath b) as [ob cb]. simpl in *.
    rewrite depth_after_app, (IHa eq_refl). exact (IHb Hj).
  - apply xrepeat_path_depth; auto.
  - apply andb_true_iff in Hw. destruct Hw as [Hp Hb].
    unfold permitted in Hp. unfold entry_call, exit_call.
    destruct k, (cleanup type) eqn:Hc; try discriminate.
    + specialize (IH (S d) Hb Hn).
      destruct (xpath body) as [o cs]. cbn [fst snd] in *.
      destruct o as [o|]; [|discriminate]. cbn [snd depth_after].
      rewrite depth_after_app, (IH eq_refl). reflexivity.
    + destruct d as [|d]; [discriminate|]. specialize (IH d Hb Hn).
      destruct (xpath body) as [o cs]. cbn [fst snd] in *.
      destruct o as [o|]; [|discriminate]. cbn [snd depth_after].
      rewrite depth_after_app, (IH eq_refl). reflexivity.
Qed.

Lemma calls_per_guard (cs : list call) :
  net cs = 0 ->
  length (filter is_cli cs) = Nat.div2 (length cs) /\
  length (filter is_sei cs) = Nat.div2 (length cs).
Proof.
  intros Hn. rewrite net_counts in Hn. rewrite (calls_split cs).
  assert (E : length (filter is_cli cs) = length (filter is_sei cs)) by lia.
  rewrite E.
  replace (length (filter is_sei cs) + length (filter is_sei cs))%nat
    with (2 * length (filter is_sei cs))%nat by lia.
  rewrite Nat.div2_double. auto.
Qed.

Lemma xguards_run_block (k : block_kind) (type : guard_decl) (body : xstmt) :
  ends_by_longjmp body = false ->
  xguards_run (Xblock k type body) = S (xguards_run body).
Proof.
  unfold ends_by_longjmp, xguards_run. cbn [xpath].
  destruct (xpath body) as [o cs]. cbn [fst snd].
  destruct o as [o|]; [|discriminate]. intros _.
  cbn [snd length]. rewrite length_app. cbn [length].
  replace (length cs + 1)%nat with (S (length cs)) by lia. reflexivity.
Qed.

(** What running an extended statement of permitted blocks does to the
    lock state when no [longjmp] is reached. *)
Lemma xexec_well_paired (me : tid) (fuel : nat) (p : xstmt) (s : state) :
  (2 <= fuel)%nat ->
  xwell_paired p = true ->
  available me (_atomic_mutex s) = true ->
  in_uint32 (_atomic_count s) ->
  exists s',
    xexec me fuel p s = Done (fst (xpath p), s') /\
    available me (_atomic_mutex s') = true /\
    (ends_by_longjmp p = false ->
     _atomic_count s' = _atomic_count s /\
     count_ev is_lock (trace s') =
       (count_ev is_lock (trace s) + xguards_run p)%nat /\
     count_ev is_unlock (trace s') =
       (count_ev is_unlock (trace s) + xguards_run p)%nat /\
     (xnonatomic_inside (held_by me (_atomic_mutex s)) p = true ->
      _atomic_mutex s' = _atomic_mutex s)).
Proof.
  intros Hf Hw Ha Hc.
  destruct (run_calls_available me (snd (xpath p)) s Ha) as (s' & Hr & Ha').
  exists s'.
  split; [rewrite (xexec_path me fuel p Hf), Hr; reflexivity|].
  split; [exact Ha'|]. intros Hj.
  pose proof (xpath_net p Hw Hj) as Hn.
  destruct (run_calls_events _ _ _ _ Hr) as [El Eu].
  destruct (calls_per_guard _ Hn) as [Gl Gu].
  split; [apply (run_calls_count_net0 _ _ _ _ Hc Hn Hr)|].
  split; [rewrite El, Gl; reflexivity|].
  split; [rewrite Eu, Gu; reflexivity|].
  intros Hin.
  destruct (run_calls_depth me _ _ _ s (xpath_depth p _ Hw Hin Hj) eq_refl Ha)
    as (s2 & Hr2 & Hh2 & _).
  rewrite Hr in Hr2. injection Hr2 as <-.
  symmetry. apply (available_held_by_inj me); auto.
Qed.

(** ** The guards *)

(** C1 (as stated) fails for the Restore parameters: the calls issued by an
    Atomic/Restore section carry the argument 0, so a nested pair of such
    sections prints nothing, where calls with the argument set would print
    two warnings. *)
Lemma restore_passes_diagnostic_off :
  path nested_restore =
    (Normal, [Call_cli 0; Call_cli 0; Call_sei 0; Call_sei 0]) /\
  (exists s', exec 0%nat 2 nested_restore initial_state = Done (Normal, s') /\
              stderr s' = []) /\
  (exists s', run_calls 0%nat [Call_cli 1; Call_cli 1; Call_sei 1; Call_sei 1]
                initial_state = Done s' /\
              stderr s' = [nested_warning; nested_warning]).
Proof.
  split; [reflexivity|].
  split; eexists; (split; [reflexivity|]); reflexivity.
Qed.

(** C1 (amended): a guard of an ATOMIC_BLOCK calls [__cli] on entry and
    [__sei] on exit, a guard of a NONATOMIC_BLOCK calls [__sei] on entry and
    [__cli] on exit; both calls of one guard carry the same argument, which
    is 1 (diagnostic on) for the two Force parameters and 0 (diagnostic off)
    for the two Restore parameters. *)
Theorem policy_diagnostic_argument (me : tid) (fuel : nat) (p : policy)
    (body : stmt) (s : state) :
  (2 <= fuel)%nat ->
  let arg := if is_force p then 1 else 0 in
  sreg_save_init (policy_decl p) = arg /\
  exec me fuel (section p body) s =
    match policy_kind p with
    | ATOMIC =>
        s1 <- __cli me arg s ;;
        '(o, s2) <- exec me fuel body s1 ;;
        Done (leave o, __sei me arg s2)
    | NONATOMIC =>
        '(o, s2) <- exec me fuel body (__sei me arg s) ;;
        s3 <- __cli me arg s2 ;;
        Done (leave o, s3)
    end.
Proof.
  intros Hf arg. subst arg. split; [destruct p; reflexivity|].
  unfold section. rewrite (exec_block_eq me fuel _ _ body s Hf).
  destruct p; simpl; unfold __iCliRetVal, __iSeiRetVal, __iSeiParam, __iCliParam;
    simpl;
    repeat match goal with
    | |- context [__cli me ?t ?x] => destruct (__cli me t x); simpl
    | |- context [exec me fuel body ?x] =>
        destruct (exec me fuel body x) as [[? ?]| |]; simpl
    end; reflexivity.
Qed.

Lemma policy_diagnostic_argument_witness :
  (2 <= 2)%nat /\
  exec 0%nat 2 (section Atomic_ForceOn Sskip) initial_state =
    (s1 <- __cli 0%nat 1 initial_state ;;
     '(o, s2) <- exec 0%nat 2 Sskip s1 ;;
     Done (leave o, __sei 0%nat 1 s2)).
Proof.
  split; [lia|].
  exact (proj2 (policy_diagnostic_argument 0%nat 2 Atomic_ForceOn Sskip
                  initial_state (le_n 2))).
Defined.

(** C7 (as stated) fails for an error propagating through the scope: a
    [longjmp] out of an ATOMIC_BLOCK(ATOMIC_FORCEON) runs the exit action
    zero times - [pthread_mutex_unlock] is not called and the mutex stays
    held. *)
Lemma longjmp_skips_exit_action :
  exists s',
    xexec 0%nat 2 jump_out_of_forceon initial_state = Done (Jumped, s') /\
    count_ev is_unlock (trace s') = 0%nat /\
    _atomic_mutex s' = Held 0%nat 1 /\
    _atomic_count s' = 1.
Proof.
  eexists. split; [reflexivity|]. repeat split.
Qed.

(** C7 (amended): when the body of a block ends by falling through, by
    [break], by [continue] or by [return], the block runs its entry call
    once, its body once and its cleanup handler once, in this order, and
    passes a [return] on; when the body is left by [longjmp], the handler
    does not run.  For an ATOMIC_BLOCK(ATOMIC_FORCEON) around code without
    inner blocks the first is exactly one [pthread_mutex_unlock], the last
    event of the block, which takes back the acquisition made on entry; the
    second is no [pthread_mutex_unlock] at all, the acquisition of the entry
    being kept. *)
Theorem block_exit_once_unless_longjmp (me : tid) (fuel : nat)
    (k : block_kind) (type : guard_decl) (body : xstmt) (s : state) :
  (2 <= fuel)%nat ->
  xexec me fuel (Xblock k type body) s =
    ('(_, s1) <- block_init me k (sreg_save_init type) s ;;
     '(o, s2) <- xexec me fuel body s1 ;;
     match o with
     | Jumped => Done (Jumped, s2)
     | Ended o' =>
         s3 <- run_cleanup me (cleanup type) (sreg_save_init type) s2 ;;
         Done (Ended (leave o'), s3)
     end) /\
  (forall q : stmt,
     block_free q = true ->
     available me (_atomic_mutex s) = true ->
     exists s1 tr,
       __cli me 1 s = Done s1 /\
       xexec me fuel (Xblock ATOMIC ATOMIC_FORCEON (Xplain q)) s =
         Done (Ended (leave (fst (path q))), __sei me 1 s1) /\
       trace (__sei me 1 s1) = tr ++ [Ev_unlock me 0] /\
       count_ev is_unlock (trace (__sei me 1 s1)) =
         S (count_ev is_unlock (trace s)) /\
       held_by me (_atomic_mutex (__sei me 1 s1)) =
         held_by me (_atomic_mutex s)) /\
  (forall q : stmt,
     block_free q = true ->
     fst (path q) = Normal ->
     available me (_atomic_mutex s) = true ->
     exists s1,
       __cli me 1 s = Done s1 /\
       xexec me fuel
         (Xblock ATOMIC ATOMIC_FORCEON (Xseq (Xplain q) Xlongjmp)) s =
         Done (Jumped, s1) /\
       count_ev is_unlock (trace s1) = count_ev is_unlock (trace s) /\
       held_by me (_atomic_mutex s1) = S (held_by me (_atomic_mutex s))).
Proof.
  intros Hf. split; [apply xexec_block_eq; exact Hf|]. split.
  - intros q Hb Ha.
    destruct (cli_done me 1 s Ha) as (s1 & H1 & Hh1 & Ha1 & _).
    destruct (mutex_unlock_held me _ _ Hh1) as (Hh2 & _ & Hrc).
    exists s1. eexists. split; [exact H1|].
    split; [|split; [|split]].
    + rewrite (xexec_path me fuel _ Hf). cbn [xpath].
      rewrite (path_block_free q Hb).
      cbn [snd fst app run_calls entry_call exit_call
           ATOMIC_FORCEON sreg_save_init cleanup run_call].
      rewrite H1. reflexivity.
    + rewrite sei_eq. simpl. rewrite Hrc.
      rewrite app_comm_cons, app_assoc. reflexivity.
    + destruct (run_call_events me (Call_sei 1) s1 _ eq_refl) as [_ Eu].
      destruct (run_call_events me (Call_cli 1) s _ H1) as [_ Eu1].
      rewrite Eu, Eu1. simpl. lia.
    + rewrite sei_mutex. exact Hh2.
  - intros q Hb Hn Ha.
    destruct (cli_done me 1 s Ha) as (s1 & H1 & Hh1 & _).
    exists s1. split; [exact H1|]. split; [|split].
    + rewrite (xexec_path me fuel _ Hf). cbn [xpath]. rewrite Hn.
      rewrite (path_block_free q Hb).
      cbn [snd fst app run_calls entry_call
           ATOMIC_FORCEON sreg_save_init run_call].
      rewrite H1. reflexivity.
    + destruct (run_call_events me (Call_cli 1) s _ H1) as [_ Eu1].
      rewrite Eu1. simpl. lia.
    + exact Hh1.
Qed.

Lemma block_exit_once_unless_longjmp_witness :
  (2 <= 2)%nat /\
  block_free (Sseq Sreturn Sskip) = true /\
  available 0%nat (_atomic_mutex initial_state) = true /\
  exists s1 tr,
    __cli 0%nat 1 initial_state = Done s1 /\
    xexec 0%nat 2
      (Xblock ATOMIC ATOMIC_FORCEON (Xplain (Sseq Sreturn Sskip)))
      initial_state = Done (Ended Return, __sei 0%nat 1 s1) /\
    trace (__sei 0%nat 1 s1) = tr ++ [Ev_unlock 0%nat 0].
Proof.
  split; [lia|]. split; [reflexivity|]. split; [reflexivity|].
  destruct (proj1 (proj2 (block_exit_once_unless_longjmp 0%nat 2 ATOMIC
                            ATOMIC_FORCEON Xlongjmp initial_state (le_n 2)))
              (Sseq Sreturn Sskip) eq_refl eq_refl)
    as (s1 & tr & H1 & H2 & H3 & _).
  exists s1, tr. auto.
Defined.

(** C6: enter, enter nested, exit inner, exit outer, starting with the
    counter at 0.  With the diagnostic argument set in both sections the
    outer [__cli] prints nothing, the inner [__cli] prints one warning, the
    inner [__sei] prints one warning and the outer [__sei] prints nothing;
    with the diagnostic argument clear in the inner section nothing is
    printed at all, whatever the outer argument.  As blocks: two nested
    ATOMIC_BLOCK(ATOMIC_FORCEON) print two warnings, an
    ATOMIC_BLOCK(ATOMIC_RESTORESTATE) nested in either Atomic block prints
    none. *)
Theorem nested_atomic_warnings (me : tid) (fuel : nat) (outer : Z) (s : state) :
  (2 <= fuel)%nat ->
  _atomic_count s = 0 ->
  available me (_atomic_mutex s) = true ->
  (exists s1 s2,
     __cli me 1 s = Done s1 /\
     __cli me 1 s1 = Done s2 /\
     stderr s1 = stderr s /\
     stderr s2 = (stderr s ++ [nested_warning])%list /\
     stderr (__sei me 1 s2) =
       (stderr s ++ [nested_warning; nested_warning])%list /\
     stderr (__sei me 1 (__sei me 1 s2)) =
       (stderr s ++ [nested_warning; nested_warning])%list /\
     exec me fuel (ATOMIC_BLOCK ATOMIC_FORCEON
                     (ATOMIC_BLOCK ATOMIC_FORCEON Sskip)) s =
       Done (Normal, __sei me 1 (__sei me 1 s2))) /\
  (exists s1 s2,
     __cli me outer s = Done s1 /\
     __cli me 0 s1 = Done s2 /\
     stderr s1 = stderr s /\
     stderr s2 = stderr s /\
     stderr (__sei me 0 s2) = stderr s /\
     stderr (__sei me outer (__sei me 0 s2)) = stderr s /\
     exec me fuel (ATOMIC_BLOCK (mkGuard outer Cleanup_iSeiParam)
                     (ATOMIC_BLOCK ATOMIC_RESTORESTATE Sskip)) s =
       Done (Normal, __sei me outer (__sei me 0 s2))).
Proof.
  intros Hf Hc Ha.
  assert (Hnest : forall t_out t_in,
    exists s1 s2,
      __cli me t_out s = Done s1 /\ __cli me t_in s1 = Done s2 /\
      stderr s1 = stderr s /\
      stderr s2 = (stderr s ++ if truthy t_in then [nested_warning] else [])%list /\
      _atomic_count s2 = 2 /\
      exec me fuel (ATOMIC_BLOCK (mkGuard t_out Cleanup_iSeiParam)
                      (ATOMIC_BLOCK (mkGuard t_in Cleanup_iSeiParam) Sskip)) s =
        Done (Normal, __sei me t_out (__sei me t_in s2))).
  { intros t_out t_in.
    destruct (cli_done me t_out s Ha) as (s1 & H1 & _ & Ha1 & Hc1).
    destruct (cli_done me t_in s1 Ha1) as (s2 & H2 & _ & _ & Hc2).
    exists s1, s2. rewrite Hc in Hc1. change (uint32 (0 + 1)) with 1 in Hc1.
    repeat split; auto.
    - rewrite (cli_stderr _ _ _ _ H1), Hc. simpl. apply app_nil_r.
    - rewrite (cli_stderr _ _ _ _ H2), (cli_stderr _ _ _ _ H1), Hc, Hc1.
      simpl. rewrite app_nil_r. reflexivity.
    - rewrite Hc2, Hc1. reflexivity.
    - unfold ATOMIC_BLOCK. rewrite (exec_path me fuel _ Hf).
      cbn [path snd fst leave app entry_call exit_call sreg_save_init cleanup
           run_calls run_call].
      rewrite H1. cbn [bind]. rewrite H2. reflexivity. }
  split.
  - destruct (Hnest 1 1) as (s1 & s2 & H1 & H2 & E1 & E2 & Hc2 & He).
    exists s1, s2. repeat split; auto.
    + rewrite sei_stderr, Hc2, E2. simpl. rewrite <- app_assoc. reflexivity.
    + rewrite sei_stderr, sei_count, sei_stderr, Hc2, E2. simpl.
      rewrite app_nil_r, <- app_assoc. reflexivity.
  - destruct (Hnest outer 0) as (s1 & s2 & H1 & H2 & E1 & E2 & Hc2 & He).
    simpl in E2. rewrite app_nil_r in E2.
    exists s1, s2. repeat split; auto.
    + rewrite sei_stderr, Hc2, E2. simpl. apply app_nil_r.
    + rewrite sei_stderr, sei_count, sei_stderr, Hc2, E2. simpl.
      rewrite !app_nil_r. reflexivity.
Qed.

Lemma nested_atomic_warnings_witness :
  (2 <= 2)%nat /\
  _atomic_count initial_state = 0 /\
  available 0%nat (_atomic_mutex initial_state) = true /\
  exists s1 s2,
    __cli 0%nat 1 initial_state = Done s1 /\
    __cli 0%nat 1 s1 = Done s2 /\
    stderr (__sei 0%nat 1 (__sei 0%nat 1 s2)) =
      [nested_warning; nested_warning].
Proof.
  split; [lia|]. split; [reflexivity|]. split; [reflexivity|].
  destruct (proj1 (nested_atomic_warnings 0%nat 2 1 initial_state
                     (le_n 2) eq_refl eq_refl))
    as (s1 & s2 & H1 & H2 & _ & _ & _ & H4 & _).
  exists s1, s2. auto.
Defined.

(** C5 (as stated) fails for a scope that exits abnormally: a single
    ATOMIC_BLOCK(ATOMIC_RESTORESTATE) left by [longjmp] performs its Acquire
    and no Release - the counter stays at 1 and the mutex stays held. *)
Lemma longjmp_leaves_depth_raised :
  exists s',
    xexec 0%nat 2 jump_out_of_restore initial_state = Done (Jumped, s') /\
    _atomic_count initial_state = 0 /\
    _atomic_count s' = 1 /\
    _atomic_mutex initial_state = Free /\
    _atomic_mutex s' = Held 0%nat 1.
Proof.
  eexists. split; [reflexivity|]. repeat split.
Qed.

(** C5 (amended): a statement of well-nested sections - permitted blocks,
    every Non-atomic section entered while the thread holds the mutex - run
    by a thread that is not kept waiting and not ended by [longjmp], ends
    with mutex and counter as they were before, after one
    [pthread_mutex_lock] and one [pthread_mutex_unlock] call for each guard
    on its path - also when scopes are left early by [break], [continue] or
    [return].  (The counter and the one-to-one calls need the blocks to be
    permitted only.)  A scope left by [longjmp] makes no exit call: an
    Atomic section whose body runs well-nested sections and then jumps ends
    with the counter one higher and the mutex acquired once more. *)
Theorem sections_restore_unless_longjmp (me : tid) (fuel : nat) (p : xstmt)
    (s : state) :
  (2 <= fuel)%nat ->
  xwell_paired p = true ->
  available me (_atomic_mutex s) = true ->
  in_uint32 (_atomic_count s) ->
  (exists s',
     xexec me fuel p s = Done (fst (xpath p), s') /\
     (ends_by_longjmp p = false ->
      _atomic_count s' = _atomic_count s /\
      count_ev is_lock (trace s') =
        (count_ev is_lock (trace s) + xguards_run p)%nat /\
      count_ev is_unlock (trace s') =
        (count_ev is_unlock (trace s) + xguards_run p)%nat /\
      (xnonatomic_inside (held_by me (_atomic_mutex s)) p = true ->
       _atomic_mutex s' = _atomic_mutex s))) /\
  (forall k type body,
     ends_by_longjmp body = false ->
     xguards_run (Xblock k type body) = S (xguards_run body)) /\
  (forall type q,
     permitted ATOMIC type = true ->
     well_paired q = true ->
     nonatomic_inside (S (held_by me (_atomic_mutex s))) q = true ->
     fst (path q) = Normal ->
     exists s1,
       xexec me fuel (Xblock ATOMIC type (Xseq (Xplain q) Xlongjmp)) s =
         Done (Jumped, s1) /\
       _atomic_count s1 = uint32 (_atomic_count s + 1) /\
       held_by me (_atomic_mutex s1) = S (held_by me (_atomic_mutex s))).
Proof.
  intros Hf Hw Ha Hc. split; [|split].
  - destruct (xexec_well_paired me fuel p s Hf Hw Ha Hc)
      as (s' & He & _ & Hrest).
    exists s'. split; [exact He|exact Hrest].
  - apply xguards_run_block.
  - intros type q Hp Hwq Hnq Hoq.
    set (v := sreg_save_init type).
    destruct (cli_done me v s Ha) as (s1 & H1 & Hh1 & Ha1 & Hc1).
    assert (Hr1 : in_uint32 (_atomic_count s1))
      by (rewrite Hc1; apply uint32_range).
    destruct (exec_well_paired me fuel q s1 Hf Hwq Ha1 Hr1)
      as (s2 & He & _ & Hc2 & _ & _ & Hm2).
    rewrite Hh1 in Hm2. specialize (Hm2 Hnq).
    exists s2. split; [|split].
    + rewrite (xexec_block_eq me fuel _ _ _ s Hf).
      cbn [block_init]. unfold __iCliRetVal. fold v. rewrite H1.
      cbn [bind xexec]. rewrite He, Hoq. reflexivity.
    + rewrite Hc2, Hc1. reflexivity.
    + rewrite Hm2. exact Hh1.
Qed.

Lemma sections_restore_unless_longjmp_witness :
  (2 <= 2)%nat /\
  xwell_paired (Xplain early_return) = true /\
  available 0%nat (_atomic_mutex initial_state) = true /\
  in_uint32 (_atomic_count initial_state) /\
  ends_by_longjmp (Xplain early_return) = false /\
  xnonatomic_inside (held_by 0%nat (_atomic_mutex initial_state))
    (Xplain early_return) = true /\
  exists s',
    xexec 0%nat 2 (Xplain early_return) initial_state =
      Done (Ended Return, s') /\
    _atomic_count s' = 0 /\
    _atomic_mutex s' = Free.
Proof.
  assert (Hc : in_uint32 (_atomic_count initial_state)) by uint32_lit.
  split; [lia|]. split; [reflexivity|]. split; [reflexivity|].
  split; [exact Hc|]. split; [reflexivity|]. split; [reflexivity|].
  destruct (proj1 (sections_restore_unless_longjmp 0%nat 2
                     (Xplain early_return) initial_state
                     (le_n 2) eq_refl eq_refl Hc))
    as (s' & He & Hrest).
  destruct (Hrest eq_refl) as (Hcnt & _ & _ & Hm).
  exists s'. split; [exact He|]. split; [exact Hcnt|]. exact (Hm eq_refl).
Defined.

Lemma mutex_unlock_pred (me : tid) (m : pthread_mutex_t) :
  held_by me (fst (mutex_unlock me m)) = Nat.pred (held_by me m).
Proof.
  destruct (held_by me m) as [|d] eqn:Hd.
  - rewrite (mutex_unlock_not_held me m Hd). exact Hd.
  - apply (mutex_unlock_held me m d Hd).
Qed.

(** C2 (as stated) fails for ATOMIC_FORCEON entered with the mutex already
    held by the thread: the exit releases the acquisition of the entry only
    and the mutex stays held. *)
Lemma forceon_nested_stays_locked :
  exists s1 s',
    __cli 0%nat 0 initial_state = Done s1 /\
    exec 0%nat 2 (section Atomic_ForceOn Sskip) s1 = Done (Normal, s') /\
    _atomic_mutex s' = Held 0%nat 1 /\
    held_by 0%nat (_atomic_mutex s') <> 0%nat.
Proof.
  do 2 eexists. split; [reflexivity|]. split; [reflexivity|].
  simpl. split; [reflexivity|]. discriminate.
Qed.

(** C2 (amended): for a body of permitted blocks and a thread that is not
    kept waiting, whatever the state of the mutex at entry - free, or held
    any number of times by the thread.  A NONATOMIC_FORCEOFF section ends
    with the mutex held by the thread.  The exit of an ATOMIC_FORCEON
    section releases one acquisition: the mutex ends one recursion level
    below where the body left it, free exactly when the body left it held
    at most once.  When in addition every Non-atomic section of the body is
    entered while the thread holds the mutex - it lies inside more Atomic
    sections than Non-atomic ones, counting the ATOMIC_FORCEON section and
    the acquisitions held at entry - the section ends with the mutex as it
    was at entry: free if it was free, still held if it was held.  The exit
    action gets the constant [sreg_save] and nothing of the entry state, and
    the value of [sreg_save] does not change what it does to mutex and
    counter. *)
Theorem force_section_exit_state (me : tid) (fuel : nat) (body : stmt)
    (s : state) :
  (2 <= fuel)%nat ->
  well_paired body = true ->
  available me (_atomic_mutex s) = true ->
  in_uint32 (_atomic_count s) ->
  (exists o s',
     exec me fuel (section Nonatomic_ForceOff body) s = Done (o, s') /\
     (0 < held_by me (_atomic_mutex s'))%nat) /\
  (exists s1 s2 s',
     __cli me 1 s = Done s1 /\
     exec me fuel body s1 = Done (fst (path body), s2) /\
     exec me fuel (section Atomic_ForceOn body) s =
       Done (leave (fst (path body)), s') /\
     held_by me (_atomic_mutex s') = Nat.pred (held_by me (_atomic_mutex s2)) /\
     (_atomic_mutex s' = Free <-> (held_by me (_atomic_mutex s2) <= 1)%nat)) /\
  (nonatomic_inside (S (held_by me (_atomic_mutex s))) body = true ->
   exists o s',
     exec me fuel (section Atomic_ForceOn body) s = Done (o, s') /\
     _atomic_mutex s' = _atomic_mutex s) /\
  (forall f v v' s2,
     result_rel same_locking (run_cleanup me f v s2) (run_cleanup me f v' s2)).
Proof.
  intros Hf Hw Ha Hc. split; [|split; [|split]].
  - unfold section. rewrite (exec_block_eq me fuel _ _ body s Hf). simpl.
    assert (Ha1 : available me (_atomic_mutex (__sei me 1 s)) = true)
      by (rewrite sei_mutex; apply mutex_unlock_available; exact Ha).
    assert (Hc1 : in_uint32 (_atomic_count (__sei me 1 s)))
      by (rewrite sei_count; apply uint32_range).
    destruct (exec_well_paired me fuel body _ Hf Hw Ha1 Hc1)
      as (s2 & He & Ha2 & _).
    rewrite He. simpl. unfold __iCliParam.
    destruct (cli_done me 1 s2 Ha2) as (s3 & H3 & Hh3 & _).
    rewrite H3. simpl. do 2 eexists. split; [reflexivity|]. lia.
  - destruct (cli_done me 1 s Ha) as (s1 & H1 & _ & Ha1 & Hc1).
    assert (Hr1 : in_uint32 (_atomic_count s1))
      by (rewrite Hc1; apply uint32_range).
    destruct (exec_well_paired me fuel body s1 Hf Hw Ha1 Hr1)
      as (s2 & He & Ha2 & _).
    pose proof (mutex_unlock_pred me (_atomic_mutex s2)) as Hp.
    pose proof (mutex_unlock_available me _ Ha2) as Ha3.
    exists s1, s2, (__sei me 1 s2).
    split; [exact H1|]. split; [exact He|]. split; [|split].
    + unfold section. rewrite (exec_block_eq me fuel _ _ body s Hf).
      simpl. unfold __iCliRetVal. rewrite H1. simpl. rewrite He. reflexivity.
    + rewrite sei_mutex. exact Hp.
    + rewrite sei_mutex. split.
      * intros Hfree. rewrite Hfree in Hp. simpl in Hp. lia.
      * intros Hle. apply (available_held_by_inj me); auto.
        rewrite Hp. simpl. lia.
  - intros Hin.
    assert (Hw' : well_paired (section Atomic_ForceOn body) = true)
      by (simpl; exact Hw).
    destruct (exec_well_paired me fuel _ s Hf Hw' Ha Hc)
      as (s' & He & _ & _ & _ & _ & Hm).
    do 2 eexists. split; [exact He|]. apply Hm. exact Hin.
  - intros f v v' s2. apply run_cleanup_same_locking. apply same_locking_refl.
Qed.

Lemma force_section_exit_state_witness :
  (2 <= 2)%nat /\
  well_paired Sbreak = true /\
  available 0%nat (_atomic_mutex initial_state) = true /\
  in_uint32 (_atomic_count initial_state) /\
  (exists o s',
     exec 0%nat 2 (section Nonatomic_ForceOff Sbreak) initial_state =
       Done (o, s') /\
     (0 < held_by 0%nat (_atomic_mutex s'))%nat) /\
  (exists o s',
     exec 0%nat 2 (section Atomic_ForceOn Sbreak) initial_state =
       Done (o, s') /\
     _atomic_mutex s' = Free).
Proof.
  assert (Hc : in_uint32 (_atomic_count initial_state)) by uint32_lit.
  split; [lia|]. split; [reflexivity|]. split; [reflexivity|].
  split; [exact Hc|].
  destruct (force_section_exit_state 0%nat 2 Sbreak initial_state
              (le_n 2) eq_refl eq_refl Hc) as (Hoff & _ & Hon & _).
  split; [exact Hoff|]. exact (Hon eq_refl).
Defined.

(** C9: a Restore section and the Force section of the same block, around
    the same body and started in the same state, end alike - both done with
    the same outcome, both waiting, or both out of fuel - with the same
    mutex, the same counter and the same sequence of lock, unlock and
    counter events; they can differ in what is printed only.  The same holds
    for the entry call alone and for the cleanup handler alone, for any two
    values of [sreg_save]: which lock action the exit takes is fixed by the
    handler, not by the value stored at construction. *)
Theorem restore_force_same_transitions (me : tid) (fuel : nat) (body : stmt)
    (s : state) :
  result_rel same_locking_out
    (exec me fuel (ATOMIC_BLOCK ATOMIC_RESTORESTATE body) s)
    (exec me fuel (ATOMIC_BLOCK ATOMIC_FORCEON body) s) /\
  result_rel same_locking_out
    (exec me fuel (NONATOMIC_BLOCK NONATOMIC_RESTORESTATE body) s)
    (exec me fuel (NONATOMIC_BLOCK NONATOMIC_FORCEOFF body) s) /\
  (forall k v v',
     result_rel same_locking_out (block_init me k v s) (block_init me k v' s)) /\
  (forall f v v',
     result_rel same_locking (run_cleanup me f v s) (run_cleanup me f v' s)).
Proof.
  split; [|split; [|split]].
  - apply exec_same_shape; [|apply same_locking_refl].
    simpl. apply same_shape_refl.
  - apply exec_same_shape; [|apply same_locking_refl].
    simpl. apply same_shape_refl.
  - intros k v v'. apply block_init_same_locking. apply same_locking_refl.
  - intros f v v'. apply run_cleanup_same_locking. apply same_locking_refl.
Qed.

(** ** Threads in parallel *)

(** The instruction sequences are the two functions. *)
Lemma run_instrs_code_of (me : tid) (c : call) (s : state) :
  run_instrs me (code_of c) s = run_call me c s.
Proof.
  destruct c as [type|type]; simpl.
  - unfold __cli. destruct (pthread_mutex_lock me s); reflexivity.
  - reflexivity.
Qed.

Lemma run_instrs_app (me : tid) (l l' : list instr) (s : state) :
  run_instrs me (l ++ l') s = (s1 <- run_instrs me l s ;; run_instrs me l' s1).
Proof.
  revert s. induction l as [|i l IH]; intros s; simpl; [reflexivity|].
  destruct (exec_instr me i s) as [s1| |]; simpl; auto.
Qed.

(** A thread running alone executes its calls one after the other. *)
Lemma run_instrs_compile (me : tid) (cs : list call) (s : state) :
  run_instrs me (compile cs) s = run_calls me cs s.
Proof.
  revert s. induction cs as [|c cs IH]; intros s; [reflexivity|].
  unfold compile in *. cbn [flat_map run_calls].
  rewrite run_instrs_app, run_instrs_code_of.
  destruct (run_call me c s) as [s1| |]; simpl; auto.
Qed.






Lemma mutex_unlock_self (t : tid) (m : pthread_mutex_t) :
  held_by t (fst (mutex_unlock t m)) = Nat.pred (held_by t m) /\
  (snd (mutex_unlock t m) = 0 <-> (0 < held_by t m)%nat).
Proof.
  destruct (held_by t m) as [|d] eqn:Hd.
  - rewrite (mutex_unlock_not_held t m Hd). simpl. split; [exact Hd|].
    unfold EPERM. split; [discriminate|lia].
  - destruct (mutex_unlock_held t m d Hd) as (Hh & _ & Hrc).
    simpl. split; [exact Hh|]. split; [lia|auto].
Qed.







Lemma set_code_same (f : tid -> list instr) (t : tid) (l : list instr) :
  set_code f t l t = l.
Proof. unfold set_code. rewrite Nat.eqb_refl. reflexivity. Qed.

Lemma set_code_other (f : tid -> list instr) (t t' : tid) (l : list instr) :
  t' <> t -> set_code f t l t' = f t'.
Proof.
  intros H. unfold set_code. destruct (Nat.eqb_spec t' t); [contradiction|].
  reflexivity.
Qed.














(** * Further properties of the header *)

(** ** What is printed *)

Lemma run_call_stderr (me : tid) (c : call) (s s' : state) :
  run_call me c s = Done s' ->
  stderr s' = stderr s \/
  (stderr s' = (stderr s ++ [nested_warning])%list /\ call_type c <> 0).
Proof.
  destruct c as [type|type]; simpl; intros H.
  - rewrite (cli_stderr _ _ _ _ H).
    destruct (truthy (_atomic_count s)); simpl;
      [|left; apply app_nil_r].
    destruct (truthy type) eqn:Et; [|left; apply app_nil_r].
    right. split; [reflexivity|]. apply truthy_true. exact Et.
  - injection H as <-. rewrite sei_stderr.
    destruct (truthy (uint32 (_atomic_count s - 1))); simpl;
      [|left; apply app_nil_r].
    destruct (truthy type) eqn:Et; [|left; apply app_nil_r].
    right. split; [reflexivity|]. apply truthy_true. exact Et.
Qed.

(** Calls only ever add to what was printed. *)
Lemma run_calls_stderr_extends (me : tid) (cs : list call) (s s' : state) :
  run_calls me cs s = Done s' ->
  exists out, stderr s' = (stderr s ++ out)%list.
Proof.
  revert s. induction cs as [|c cs IH]; intros s H; simpl in H.
  - injection H as <-. exists []. symmetry. apply app_nil_r.
  - destruct (run_call me c s) as [s1| |] eqn:H1; try discriminate.
    simpl in H. destruct (IH s1 H) as [out Hout].
    destruct (run_call_stderr _ _ _ _ H1) as [E|[E _]]; rewrite Hout, E.
    + exists out. reflexivity.
    + exists (nested_warning :: out). rewrite <- app_assoc. reflexivity.
Qed.

Lemma run_calls_type0_silent (me : tid) (cs : list call) (s s' : state) :
  forallb (fun c => call_type c =? 0) cs = true ->
  run_calls me cs s = Done s' -> stderr s' = stderr s.
Proof.
  revert s. induction cs as [|c cs IH]; intros s Hz H; simpl in *.
  - injection H as <-. reflexivity.
  - apply andb_true_iff in Hz. destruct Hz as [Hc Hz].
    destruct (run_call me c s) as [s1| |] eqn:H1; try discriminate.
    simpl in H. rewrite (IH s1 Hz H).
    destruct (run_call_stderr _ _ _ _ H1) as [E|[_ E]]; [exact E|].
    apply Z.eqb_eq in Hc. contradiction.
Qed.

Lemma forallb_repeat_path (f : call -> bool) (n : nat)
    (pb : outcome * list call) :
  forallb f (snd pb) = true -> forallb f (snd (repeat_path n pb)) = true.
Proof.
  intros Hb. induction n as [|n IH]; simpl; [reflexivity|].
  destruct pb as [o cs]. simpl in *.
  destruct o; simpl; auto;
    destruct (repeat_path n _) as [o' cs']; simpl in *;
    rewrite forallb_app, Hb; exact IH.
Qed.

Lemma restore_only_path (p : stmt) :
  restore_only p = true ->
  forallb (fun c => call_type c =? 0) (snd (path p)) = true.
Proof.
  induction p as [|a IHa b IHb| | | |n body IH|k type body IH]; simpl;
    intros Hr; try reflexivity.
  - apply andb_true_iff in Hr. destruct Hr as [Ha Hb].
    specialize (IHa Ha). specialize (IHb Hb).
    destruct (path a) as [oa ca]. simpl in *.
    destruct oa; simpl; auto.
    destruct (path b) as [ob cb]. simpl in *.
    rewrite forallb_app, IHa. exact IHb.
  - apply forallb_repeat_path. auto.
  - apply andb_true_iff in Hr. destruct Hr as [Ht Hb]. specialize (IH Hb).
    destruct (path body) as [o cs]. cbn [snd] in *.
    cbn [forallb]. rewrite forallb_app, IH. cbn [forallb].
    unfold entry_call, exit_call.
    destruct k, (cleanup type); cbn [call_type]; rewrite Ht; reflexivity.
Qed.

(** X1: a statement in which every guard is declared with a Restore
    parameter prints nothing, however its sections are nested and whether or
    not they are paired; and it runs to its end when its thread is not kept
    waiting at the start. *)
Theorem restore_only_prints_nothing (me : tid) (fuel : nat) (p : stmt)
    (s : state) :
  (2 <= fuel)%nat ->
  restore_only p = true ->
  (forall o s', exec me fuel p s = Done (o, s') -> stderr s' = stderr s) /\
  (available me (_atomic_mutex s) = true ->
   exists s', exec me fuel p s = Done (fst (path p), s') /\
              stderr s' = stderr s).
Proof.
  intros Hf Hr.
  assert (Hsil : forall o s',
            exec me fuel p s = Done (o, s') -> stderr s' = stderr s).
  { intros o s' H. rewrite (exec_path me fuel p Hf) in H.
    destruct (run_calls me (snd (path p)) s) as [s1| |] eqn:H1;
      try discriminate.
    simpl in H. injection H as _ <-.
    apply (run_calls_type0_silent me _ _ _ (restore_only_path p Hr) H1). }
  split; [exact Hsil|].
  intros Ha.
  destruct (run_calls_available me (snd (path p)) s Ha) as (s' & H1 & _).
  assert (He : exec me fuel p s = Done (fst (path p), s'))
    by (rewrite (exec_path me fuel p Hf), H1; reflexivity).
  exists s'. split; [exact He|]. apply (Hsil _ _ He).
Qed.

Lemma restore_only_prints_nothing_witness :
  (2 <= 2)%nat /\
  restore_only nested_restore = true /\
  available 0%nat (_atomic_mutex initial_state) = true /\
  exists s', exec 0%nat 2 nested_restore initial_state = Done (Normal, s') /\
             stderr s' = [].
Proof.
  split; [lia|]. split; [reflexivity|]. split; [reflexivity|].
  exact (proj2 (restore_only_prints_nothing 0%nat 2 nested_restore
                  initial_state (le_n 2) eq_refl) eq_refl).
Defined.

Lemma exec_stderr_extends (me : tid) (fuel : nat) (p : stmt) (s s' : state)
    (o : outcome) :
  (2 <= fuel)%nat ->
  exec me fuel p s = Done (o, s') ->
  exists out, stderr s' = (stderr s ++ out)%list.
Proof.
  intros Hf H. rewrite (exec_path me fuel p Hf) in H.
  destruct (run_calls me (snd (path p)) s) as [s1| |] eqn:H1; try discriminate.
  simpl in H. injection H as _ <-.
  apply (run_calls_stderr_extends me _ _ _ H1).
Qed.

Lemma uint32_pred_succ (c : Z) :
  in_uint32 c -> uint32 (uint32 (c + 1) - 1) = c.
Proof.
  intros Hc. replace (uint32 (c + 1) - 1) with (uint32 (c + 1) + -1) by lia.
  rewrite uint32_add. replace (c + 1 + -1) with c by lia.
  apply uint32_small. exact Hc.
Qed.

Lemma uint32_succ_pred (c : Z) :
  in_uint32 c -> uint32 (uint32 (c - 1) + 1) = c.
Proof.
  intros Hc. rewrite uint32_add. replace (c - 1 + 1) with c by lia.
  apply uint32_small. exact Hc.
Qed.

(** X2: around a body of permitted blocks (each block macro with one of
    its own parameters), run by a thread that is not kept waiting, the two
    warnings of a Force section come together.  An
    ATOMIC_BLOCK(ATOMIC_FORCEON) prints one warning before such a body and
    one after it exactly when the counter at entry is not 0, and none of its
    own otherwise; a NONATOMIC_BLOCK(NONATOMIC_FORCEOFF) does so exactly
    when the counter at entry is not 1.  In between stands what the body
    prints. *)
Theorem force_warnings_come_in_pairs (me : tid) (fuel : nat) (body : stmt)
    (s : state) :
  (2 <= fuel)%nat ->
  well_paired body = true ->
  available me (_atomic_mutex s) = true ->
  in_uint32 (_atomic_count s) ->
  (exists s1 s2 s' out,
     __cli me 1 s = Done s1 /\
     exec me fuel body s1 = Done (fst (path body), s2) /\
     stderr s2 = (stderr s1 ++ out)%list /\
     exec me fuel (ATOMIC_BLOCK ATOMIC_FORCEON body) s =
       Done (leave (fst (path body)), s') /\
     let w := if truthy (_atomic_count s) then [nested_warning] else [] in
     stderr s' = (stderr s ++ w ++ out ++ w)%list) /\
  (exists s2 s' out,
     exec me fuel body (__sei me 1 s) = Done (fst (path body), s2) /\
     stderr s2 = (stderr (__sei me 1 s) ++ out)%list /\
     exec me fuel (NONATOMIC_BLOCK NONATOMIC_FORCEOFF body) s =
       Done (leave (fst (path body)), s') /\
     let w := if truthy (uint32 (_atomic_count s - 1))
              then [nested_warning] else [] in
     stderr s' = (stderr s ++ w ++ out ++ w)%list).
Proof.
  intros Hf Hw Ha Hc. split.
  - destruct (cli_done me 1 s Ha) as (s1 & H1 & _ & Ha1 & Hc1).
    assert (Hr1 : in_uint32 (_atomic_count s1))
      by (rewrite Hc1; apply uint32_range).
    destruct (exec_well_paired me fuel body s1 Hf Hw Ha1 Hr1)
      as (s2 & He & _ & Hc2 & _).
    destruct (exec_stderr_extends me fuel body s1 s2 _ Hf He) as [out Hout].
    exists s1, s2, (__sei me 1 s2), out.
    split; [exact H1|]. split; [exact He|]. split; [exact Hout|]. split.
    + unfold ATOMIC_BLOCK. rewrite (exec_block_eq me fuel _ _ body s Hf).
      simpl. unfold __iCliRetVal. rewrite H1. simpl. rewrite He. reflexivity.
    + simpl. rewrite sei_stderr, Hout, (cli_stderr _ _ _ _ H1), Hc2, Hc1.
      rewrite (uint32_pred_succ _ Hc).
      change (truthy 1) with true. rewrite !andb_true_r.
      rewrite <- !app_assoc. reflexivity.
  - assert (Ha1 : available me (_atomic_mutex (__sei me 1 s)) = true)
      by (rewrite sei_mutex; apply mutex_unlock_available; exact Ha).
    assert (Hr1 : in_uint32 (_atomic_count (__sei me 1 s)))
      by (rewrite sei_count; apply uint32_range).
    destruct (exec_well_paired me fuel body _ Hf Hw Ha1 Hr1)
      as (s2 & He & Ha2 & Hc2 & _).
    destruct (exec_stderr_extends me fuel body _ s2 _ Hf He) as [out Hout].
    destruct (cli_done me 1 s2 Ha2) as (s3 & H3 & _).
    exists s2, s3, out.
    split; [exact He|]. split; [exact Hout|]. split.
    + unfold NONATOMIC_BLOCK. rewrite (exec_block_eq me fuel _ _ body s Hf).
      simpl. rewrite He. simpl. unfold __iCliParam. rewrite H3. reflexivity.
    + simpl. rewrite (cli_stderr _ _ _ _ H3), Hout, sei_stderr, Hc2, sei_count.
      change (truthy 1) with true. rewrite !andb_true_r.
      rewrite <- !app_assoc. reflexivity.
Qed.

Lemma force_warnings_come_in_pairs_witness :
  (2 <= 2)%nat /\
  well_paired Sskip = true /\
  available 0%nat (_atomic_mutex held_twice) = true /\
  in_uint32 (_atomic_count held_twice) /\
  exists s',
    exec 0%nat 2 (ATOMIC_BLOCK ATOMIC_FORCEON Sskip) held_twice =
      Done (Normal, s') /\
    stderr s' = [nested_warning; nested_warning].
Proof.
  assert (Hc : in_uint32 (_atomic_count held_twice)) by uint32_lit.
  split; [lia|]. split; [reflexivity|]. split; [reflexivity|].
  split; [exact Hc|].
  destruct (proj1 (force_warnings_come_in_pairs 0%nat 2 Sskip held_twice
                     (le_n 2) eq_refl eq_refl Hc))
    as (s1 & s2 & s' & out & H1 & He & Hout & Hb & Hs).
  exists s'. split; [exact Hb|].
  simpl in He. injection He as <-.
  assert (out = []).
  { apply (app_inv_head (stderr s1)). rewrite app_nil_r. symmetry.
    exact Hout. }
  subst out. exact Hs.
Defined.

Lemma quiet_well_nested (p : stmt) (d : nat) :
  quiet d p = true -> well_paired p = true /\ nonatomic_inside d p = true.
Proof.
  revert d.
  induction p as [|a IHa b IHb| | | |n body IH|k type body IH];
    cbn [quiet well_paired nonatomic_inside]; intros d Hq; auto.
  - apply andb_true_iff in Hq. destruct Hq as [Ha Hb].
    destruct (IHa d Ha) as [-> ->]. destruct (IHb d Hb) as [-> ->]. auto.
  - destruct k.
    + apply andb_true_iff in Hq. destruct Hq as [Hq Hb].
      apply andb_true_iff in Hq. destruct Hq as [Hp _].
      destruct (IH (S d) Hb) as [-> ->]. rewrite Hp. auto.
    + destruct d as [|d]; [discriminate|].
      apply andb_true_iff in Hq. destruct Hq as [Hq Hb].
      apply andb_true_iff in Hq. destruct Hq as [Hp _].
      destruct (IH d Hb) as [-> ->]. rewrite Hp. auto.
Qed.

Lemma quiet_calls_app (cs cs' : list call) (d d1 : nat) :
  quiet_calls d cs = true -> depth_after d cs = Some d1 ->
  quiet_calls d1 cs' = true -> quiet_calls d (cs ++ cs') = true.
Proof.
  revert d. induction cs as [|[type|type] cs IH]; intros d Hq Hd Hq'; simpl in *.
  - injection Hd as <-. exact Hq'.
  - apply andb_true_iff in Hq. destruct Hq as [-> Hq]. simpl.
    apply (IH (S d)); auto.
  - destruct d as [|d]; [discriminate|].
    apply andb_true_iff in Hq. destruct Hq as [-> Hq]. simpl.
    apply (IH d); auto.
Qed.

Lemma quiet_repeat_path (n d : nat) (pb : outcome * list call) :
  quiet_calls d (snd pb) = true -> depth_after d (snd pb) = Some d ->
  quiet_calls d (snd (repeat_path n pb)) = true.
Proof.
  intros Hq Hd. induction n as [|n IH]; simpl; [reflexivity|].
  destruct pb as [o cs]. simpl in *.
  destruct o; simpl; auto;
    destruct (repeat_path n _) as [o' cs']; simpl in *;
    apply (quiet_calls_app cs cs' d d); auto.
Qed.

Lemma quiet_path (p : stmt) (d : nat) :
  quiet d p = true -> quiet_calls d (snd (path p)) = true.
Proof.
  revert d.
  induction p as [|a IHa b IHb| | | |n body IH|k type body IH];
    intros d Hq; try reflexivity.
  - simpl in Hq. apply andb_true_iff in Hq. destruct Hq as [Ha Hb].
    destruct (quiet_well_nested a d Ha) as [Hwa Hna].
    pose proof (path_depth a d Hwa Hna) as Hda.
    specialize (IHa d Ha). specialize (IHb d Hb). simpl.
    destruct (path a) as [oa ca]. simpl in *.
    destruct oa; simpl; auto.
    destruct (path b) as [ob cb]. simpl in *.
    apply (quiet_calls_app ca cb d d); auto.
  - simpl in Hq. destruct (quiet_well_nested body d Hq) as [Hwb Hnb].
    simpl. apply quiet_repeat_path; [apply IH; exact Hq|].
    apply path_depth; assumption.
  - simpl in Hq. destruct k.
    + apply andb_true_iff in Hq. destruct Hq as [Hq Hb].
      apply andb_true_iff in Hq. destruct Hq as [Hp Ht].
      destruct (quiet_well_nested body (S d) Hb) as [Hwb Hnb].
      pose proof (path_depth body (S d) Hwb Hnb) as Hdb.
      specialize (IH (S d) Hb). cbn [path].
      destruct (path body) as [o cs]. cbn [snd] in *.
      unfold permitted in Hp. unfold entry_call, exit_call.
      destruct (cleanup type); [|discriminate].
      cbn [quiet_calls]. rewrite Ht. cbn [andb].
      apply (quiet_calls_app cs _ (S d) (S d)); auto.
      cbn [quiet_calls]. rewrite Ht. reflexivity.
    + destruct d as [|d]; [discriminate|].
      apply andb_true_iff in Hq. destruct Hq as [Hq Hb].
      apply andb_true_iff in Hq. destruct Hq as [Hp Ht].
      destruct (quiet_well_nested body d Hb) as [Hwb Hnb].
      pose proof (path_depth body d Hwb Hnb) as Hdb.
      specialize (IH d Hb). cbn [path].
      destruct (path body) as [o cs]. cbn [snd] in *.
      unfold permitted in Hp. unfold entry_call, exit_call.
      destruct (cleanup type); [discriminate|].
      cbn [quiet_calls]. rewrite Ht. cbn [andb].
      apply (quiet_calls_app cs _ d d); auto.
      cbn [quiet_calls]. rewrite Ht. reflexivity.
Qed.

Lemma uint32_of_nat_S (d : nat) :
  uint32 (uint32 (Z.of_nat d) + 1) = uint32 (Z.of_nat (S d)).
Proof. rewrite uint32_add. f_equal. lia. Qed.

Lemma uint32_of_nat_pred (d : nat) :
  uint32 (uint32 (Z.of_nat (S d)) - 1) = uint32 (Z.of_nat d).
Proof.
  replace (uint32 (Z.of_nat (S d)) - 1)
    with (uint32 (Z.of_nat (S d)) + -1) by lia.
  rewrite uint32_add. f_equal. lia.
Qed.

Lemma run_calls_quiet (me : tid) (cs : list call) (d : nat) (s s' : state) :
  quiet_calls d cs = true ->
  _atomic_count s = uint32 (Z.of_nat d) ->
  run_calls me cs s = Done s' -> stderr s' = stderr s.
Proof.
  revert d s. induction cs as [|[type|type] cs IH]; intros d s Hq Hc H;
    simpl in *.
  - injection H as <-. reflexivity.
  - apply andb_true_iff in Hq. destruct Hq as [Ht Hq].
    destruct (__cli me type s) as [s1| |] eqn:H1; try discriminate.
    simpl in H.
    destruct (cli_inv _ _ _ _ H1) as (m' & _ & Es1).
    assert (Hc1 : _atomic_count s1 = uint32 (Z.of_nat (S d))).
    { rewrite Es1. simpl. rewrite Hc. apply uint32_of_nat_S. }
    rewrite (IH (S d) s1 Hq Hc1 H), (cli_stderr _ _ _ _ H1), Hc.
    apply orb_true_iff in Ht. destruct Ht as [Ht|Ht].
    + apply Z.eqb_eq in Ht. subst type. rewrite andb_false_r.
      apply app_nil_r.
    + apply Nat.eqb_eq in Ht. subst d. apply app_nil_r.
  - destruct d as [|d]; [discriminate|].
    apply andb_true_iff in Hq. destruct Hq as [Ht Hq].
    assert (Hc1 : _atomic_count (__sei me type s) = uint32 (Z.of_nat d)).
    { rewrite sei_count, Hc. apply uint32_of_nat_pred. }
    rewrite (IH d _ Hq Hc1 H), sei_stderr, Hc, uint32_of_nat_pred.
    apply orb_true_iff in Ht. destruct Ht as [Ht|Ht].
    + apply Z.eqb_eq in Ht. subst type. rewrite andb_false_r.
      apply app_nil_r.
    + apply Nat.eqb_eq in Ht. subst d. apply app_nil_r.
Qed.

(** X3: the diagnostic raises no false alarm.  Count as open the
    acquisitions the thread holds at the start, plus the Atomic sections
    and minus the Non-atomic sections around a place.  A statement of
    permitted blocks in which every Non-atomic section is entered with at
    least one acquisition open, every ATOMIC_FORCEON section with none open
    and every NONATOMIC_FORCEOFF section with exactly one open, run by a
    thread that is not kept waiting and started with the counter equal to
    the number of acquisitions the thread holds, prints nothing and ends
    with mutex and counter as they were. *)
Theorem well_used_sections_print_nothing (me : tid) (fuel : nat) (p : stmt)
    (s : state) :
  (2 <= fuel)%nat ->
  quiet (held_by me (_atomic_mutex s)) p = true ->
  available me (_atomic_mutex s) = true ->
  _atomic_count s = uint32 (Z.of_nat (held_by me (_atomic_mutex s))) ->
  exists s',
    exec me fuel p s = Done (fst (path p), s') /\
    stderr s' = stderr s /\
    _atomic_count s' = _atomic_count s /\
    _atomic_mutex s' = _atomic_mutex s.
Proof.
  intros Hf Hq Ha Hc.
  destruct (quiet_well_nested p _ Hq) as [Hw Hn].
  assert (Hr : in_uint32 (_atomic_count s)) by (rewrite Hc; apply uint32_range).
  destruct (exec_well_paired me fuel p s Hf Hw Ha Hr)
    as (s' & He & _ & Hcnt & _ & _ & Hm).
  exists s'. split; [exact He|]. split; [|split; [exact Hcnt|exact (Hm Hn)]].
  rewrite (exec_path me fuel p Hf) in He.
  destruct (run_calls me (snd (path p)) s) as [s1| |] eqn:H1; try discriminate.
  simpl in He. injection He as <-.
  apply (run_calls_quiet me _ _ _ _ (quiet_path p _ Hq) Hc H1).
Qed.

Lemma well_used_sections_print_nothing_witness :
  (2 <= 2)%nat /\
  quiet (held_by 0%nat (_atomic_mutex initial_state)) force_pair = true /\
  available 0%nat (_atomic_mutex initial_state) = true /\
  _atomic_count initial_state =
    uint32 (Z.of_nat (held_by 0%nat (_atomic_mutex initial_state))) /\
  exists s',
    exec 0%nat 2 force_pair initial_state = Done (Normal, s') /\
    stderr s' = [] /\
    _atomic_count s' = 0 /\
    _atomic_mutex s' = Free.
Proof.
  split; [lia|]. split; [reflexivity|]. split; [reflexivity|].
  split; [reflexivity|].
  exact (well_used_sections_print_nothing 0%nat 2 force_pair initial_state
           (le_n 2) eq_refl eq_refl eq_refl).
Defined.

(** ** What a Non-atomic section does to the mutex *)

Lemma held_by_owner (me : tid) (m : pthread_mutex_t) (n : nat) :
  held_by me m = S n -> exists c, m = Held me c /\ Pos.to_nat c = S n.
Proof.
  destruct m as [|o c]; simpl; [discriminate|].
  destruct (Nat.eqb_spec o me) as [->|]; [|discriminate].
  intros H. exists c. auto.
Qed.

(** X4: a NONATOMIC_BLOCK gives up one acquisition only.  Entered by a
    thread that holds the mutex [n + 1] times, its body runs with the mutex
    held [n] times: other threads can take the mutex during the body when
    the block lies directly inside a single Atomic section ([n = 0]) and
    cannot when it lies deeper. *)
Theorem nonatomic_gives_up_one_level (me t' : tid) (type : Z) (n : nat)
    (s : state) :
  held_by me (_atomic_mutex s) = S n ->
  t' <> me ->
  exists s1,
    block_init me NONATOMIC type s = Done (1, s1) /\
    held_by me (_atomic_mutex s1) = n /\
    available t' (_atomic_mutex s1) = Nat.eqb n 0 /\
    (forall type', n <> 0%nat -> __cli t' type' s1 = Blocked) /\
    (forall type', n = 0%nat -> exists s2, __cli t' type' s1 = Done s2).
Proof.
  intros Hh Hne. exists (__sei me type s).
  assert (Hav : available t' (_atomic_mutex (__sei me type s)) = Nat.eqb n 0).
  { rewrite sei_mutex.
    destruct (held_by_owner me _ _ Hh) as (c & Hm & Hc). rewrite Hm.
    simpl. rewrite Nat.eqb_refl. simpl.
    destruct (Pos.eq_dec c 1) as [->|Hc1].
    - change (Pos.to_nat 1) with 1%nat in Hc.
      assert (E : n = 0%nat) by lia. rewrite E. reflexivity.
    - assert (Hmm : match c with
                    | xH => Free
                    | _ => Held me (Pos.pred c)
                    end = Held me (Pos.pred c)) by (destruct c; congruence).
      rewrite Hmm. simpl.
      destruct (Nat.eqb_spec me t'); [congruence|].
      destruct n; [lia|reflexivity]. }
  destruct (mutex_unlock_held me _ n Hh) as (Hh1 & _ & _).
  split; [reflexivity|]. split; [rewrite sei_mutex; exact Hh1|].
  split; [exact Hav|]. split.
  - intros type' Hn. apply cli_waits. rewrite Hav.
    destruct n; [contradiction|reflexivity].
  - intros type' Hn. rewrite Hn in Hav.
    destruct (cli_done t' type' (__sei me type s) Hav) as (s2 & H2 & _).
    exists s2. exact H2.
Qed.

Lemma nonatomic_gives_up_one_level_witness :
  held_by 0%nat (_atomic_mutex held_twice) = 2%nat /\
  1%nat <> 0%nat /\
  exists s1,
    block_init 0%nat NONATOMIC 0 held_twice = Done (1, s1) /\
    held_by 0%nat (_atomic_mutex s1) = 1%nat /\
    __cli 1%nat 1 s1 = Blocked.
Proof.
  assert (Hne : 1%nat <> 0%nat) by discriminate.
  split; [reflexivity|]. split; [exact Hne|].
  destruct (nonatomic_gives_up_one_level 0%nat 1%nat 0 1 held_twice
              eq_refl Hne) as (s1 & Hi & Hh & _ & Hw & _).
  exists s1. split; [exact Hi|]. split; [exact Hh|].
  apply Hw. discriminate.
Defined.

(** X5: a NONATOMIC_BLOCK, with either of its parameters, opened while the
    mutex is free - outside every Atomic section - ends with the mutex held
    once by its thread and with the counter as it was: the unlock of the
    entry fails without effect, the lock of the exit succeeds.  From then on
    the [__cli] of every other thread waits. *)
Theorem nonatomic_outside_ends_locked (me : tid) (fuel : nat)
    (type : guard_decl) (body : stmt) (s : state) :
  (2 <= fuel)%nat ->
  permitted NONATOMIC type = true ->
  well_paired body = true ->
  nonatomic_inside 0 body = true ->
  _atomic_mutex s = Free ->
  in_uint32 (_atomic_count s) ->
  exists s',
    exec me fuel (NONATOMIC_BLOCK type body) s =
      Done (leave (fst (path body)), s') /\
    _atomic_mutex s' = Held me 1 /\
    _atomic_count s' = _atomic_count s /\
    (forall t' type', t' <> me -> __cli t' type' s' = Blocked).
Proof.
  intros Hf Hp Hw Hn Hm Hc.
  set (s1 := __sei me (sreg_save_init type) s).
  assert (Hm1 : _atomic_mutex s1 = Free)
    by (unfold s1; rewrite sei_mutex, Hm; reflexivity).
  assert (Ha1 : available me (_atomic_mutex s1) = true)
    by (rewrite Hm1; reflexivity).
  assert (Hc1 : in_uint32 (_atomic_count s1))
    by (unfold s1; rewrite sei_count; apply uint32_range).
  destruct (exec_well_paired me fuel body s1 Hf Hw Ha1 Hc1)
    as (s2 & He & _ & Hc2 & _ & _ & Hm2).
  assert (Hm2' : _atomic_mutex s2 = Free).
  { rewrite Hm2; [exact Hm1|]. rewrite Hm1. exact Hn. }
  assert (Hl : mutex_lock me (_atomic_mutex s2) = Some (Held me 1))
    by (rewrite Hm2'; reflexivity).
  pose proof (cli_eq me (sreg_save_init type) s2 _ Hl) as H3.
  eexists. split; [|split; [|split]].
  - unfold NONATOMIC_BLOCK. rewrite (exec_block_eq me fuel _ _ body s Hf).
    cbn [block_init __iSeiRetVal bind]. fold s1. rewrite He. cbn [bind].
    unfold permitted in Hp. destruct (cleanup type); [discriminate|].
    cbn [run_cleanup]. unfold __iCliParam. rewrite H3. reflexivity.
  - reflexivity.
  - cbn [_atomic_count]. rewrite Hc2. unfold s1. rewrite sei_count.
    apply uint32_succ_pred. exact Hc.
  - intros t' type' Hne. apply cli_waits. cbn [_atomic_mutex available].
    destruct (Nat.eqb_spec me t'); [congruence|reflexivity].
Qed.

Lemma nonatomic_outside_ends_locked_witness :
  (2 <= 2)%nat /\
  permitted NONATOMIC NONATOMIC_RESTORESTATE = true /\
  well_paired Sskip = true /\
  nonatomic_inside 0 Sskip = true /\
  _atomic_mutex initial_state = Free /\
  in_uint32 (_atomic_count initial_state) /\
  exists s',
    exec 0%nat 2 (NONATOMIC_BLOCK NONATOMIC_RESTORESTATE Sskip) initial_state =
      Done (Normal, s') /\
    _atomic_mutex s' = Held 0%nat 1 /\
    _atomic_count s' = 0.
Proof.
  assert (Hc : in_uint32 (_atomic_count initial_state)) by uint32_lit.
  split; [lia|]. split; [reflexivity|]. split; [reflexivity|].
  split; [reflexivity|]. split; [reflexivity|]. split; [exact Hc|].
  destruct (nonatomic_outside_ends_locked 0%nat 2 NONATOMIC_RESTORESTATE Sskip
           initial_state (le_n 2) eq_refl eq_refl eq_refl eq_refl Hc)
    as (s' & He & Hm & Hcnt & _).
  exists s'. auto.
Defined.

(** X6: nothing checks that a block macro gets one of its own parameters.
    An ATOMIC_BLOCK given a NONATOMIC parameter calls [__cli] on entry and
    on exit: it ends two acquisitions and two counts up.  A NONATOMIC_BLOCK
    given an ATOMIC parameter calls [__sei] twice: it ends two acquisitions
    (as far as held) and two counts down. *)
Theorem mispaired_block_is_unbalanced (me : tid) (fuel : nat)
    (k : block_kind) (type : guard_decl) (body : stmt) (s : state) :
  (2 <= fuel)%nat ->
  permitted k type = false ->
  block_free body = true ->
  available me (_atomic_mutex s) = true ->
  exists s',
    exec me fuel (Sblock k type body) s =
      Done (leave (fst (path body)), s') /\
    match k with
    | ATOMIC =>
        held_by me (_atomic_mutex s') = S (S (held_by me (_atomic_mutex s))) /\
        _atomic_count s' = uint32 (_atomic_count s + 2)
    | NONATOMIC =>
        held_by me (_atomic_mutex s') =
          Nat.pred (Nat.pred (held_by me (_atomic_mutex s))) /\
        _atomic_count s' = uint32 (_atomic_count s - 2)
    end.
Proof.
  intros Hf Hp Hb Ha.
  rewrite (exec_path me fuel _ Hf). cbn [path].
  pose proof (path_block_free body Hb) as Hcs.
  destruct (path body) as [o cs]. cbn [snd fst] in *. subst cs.
  unfold permitted in Hp. unfold entry_call, exit_call.
  set (v := sreg_save_init type).
  destruct k, (cleanup type); try discriminate; cbn [app run_calls run_call].
  - destruct (cli_done me v s Ha) as (s1 & H1 & Hh1 & Ha1 & Hc1).
    destruct (cli_done me v s1 Ha1) as (s2 & H2 & Hh2 & _ & Hc2).
    rewrite H1. cbn [bind]. rewrite H2. cbn [bind].
    exists s2. split; [reflexivity|]. split.
    + rewrite Hh2, Hh1. reflexivity.
    + rewrite Hc2, Hc1, uint32_add. f_equal. lia.
  - cbn [bind]. eexists. split; [reflexivity|]. split.
    + rewrite !sei_mutex.
      rewrite (proj1 (mutex_unlock_self me _)).
      rewrite <- (sei_mutex me v s).
      rewrite sei_mutex, (proj1 (mutex_unlock_self me _)). reflexivity.
    + rewrite !sei_count.
      replace (uint32 (_atomic_count s - 1) - 1)
        with (uint32 (_atomic_count s - 1) + -1) by lia.
      rewrite uint32_add. f_equal. lia.
Qed.

Lemma mispaired_block_is_unbalanced_witness :
  (2 <= 2)%nat /\
  permitted ATOMIC NONATOMIC_FORCEOFF = false /\
  block_free Sskip = true /\
  available 0%nat (_atomic_mutex initial_state) = true /\
  exists s',
    exec 0%nat 2 (ATOMIC_BLOCK NONATOMIC_FORCEOFF Sskip) initial_state =
      Done (Normal, s') /\
    held_by 0%nat (_atomic_mutex s') = 2%nat /\
    _atomic_count s' = 2.
Proof.
  split; [lia|]. split; [reflexivity|]. split; [reflexivity|].
  split; [reflexivity|].
  exact (mispaired_block_is_unbalanced 0%nat 2 ATOMIC NONATOMIC_FORCEOFF Sskip
           initial_state (le_n 2) eq_refl eq_refl eq_refl).
Defined.

(** ** The counter and the mutex under parallel execution *)



















(** ** Progress *)




(** ** One thread running alone *)

Lemma solo_run (c0 : config) (me : tid) (l r : list instr) :
  forall (c : config) (s' : state),
    reachable c0 c ->
    code c me = l ++ r ->
    run_instrs me l (shared c) = Done s' ->
    exists c',
      reachable c0 c' /\ shared c' = s' /\ code c' me = r /\
      others_as c' c me.
Proof.
  induction l as [|i l IH]; intros c s' Hr Hcode Hrun; simpl in *.
  - injection Hrun as <-. exists c.
    split; [exact Hr|]. split; [reflexivity|]. split; [exact Hcode|].
    intros t _. reflexivity.
  - destruct (exec_instr me i (shared c)) as [s1| |] eqn:H1; try discriminate.
    simpl in Hrun.
    set (c1 := {| shared := s1; code := set_code (code c) me (l ++ r) |}).
    assert (Hs : step c me i c1) by (apply (step_instr c me i _ s1 Hcode H1)).
    destruct (IH c1 s' (reach_step c0 c c1 me i Hr Hs)) as (c' & Hr' & Hsh & Hc' & Ho).
    + simpl. apply set_code_same.
    + exact Hrun.
    + exists c'.
      split; [exact Hr'|]. split; [exact Hsh|]. split; [exact Hc'|].
      intros t Hne. rewrite (Ho t Hne). simpl. apply set_code_other. exact Hne.
Qed.

(** X9: the two ways of running agree.  What a thread running its
    statement alone from the initial state computes is reached in the
    interleaved model by letting this thread take all its steps: its code
    is then used up and the code of every other thread is untouched. *)
Theorem solo_thread_reaches_exec (prog : tid -> stmt) (me : tid) (fuel : nat) :
  (2 <= fuel)%nat ->
  exists s' c,
    exec me fuel (prog me) initial_state = Done (fst (path (prog me)), s') /\
    reachable (start prog) c /\
    shared c = s' /\
    code c me = [] /\
    others_as c (start prog) me.
Proof.
  intros Hf.
  destruct (run_calls_available me (snd (path (prog me))) initial_state eq_refl)
    as (s' & Hrun & _).
  destruct (solo_run (start prog) me (compile (snd (path (prog me)))) []
              (start prog) s' (reach_start _))
    as (c & Hr & Hsh & Hcode & Ho).
  - simpl. symmetry. apply app_nil_r.
  - simpl shared. rewrite run_instrs_compile. exact Hrun.
  - exists s', c. split; [|auto].
    rewrite (exec_path me fuel _ Hf), Hrun. reflexivity.
Qed.

Lemma solo_thread_reaches_exec_witness :
  (2 <= 2)%nat /\
  exists s' c,
    exec 0%nat 2 (all_atomic 0%nat) initial_state = Done (Normal, s') /\
    reachable (start all_atomic) c /\
    shared c = s' /\
    code c 0%nat = [].
Proof.
  split; [lia|].
  destruct (solo_thread_reaches_exec all_atomic 0%nat 2 (le_n 2))
    as (s' & c & He & Hr & Hs & Hc & _).
  exists s', c. auto.
Defined.
